(** * cgbi: conversion between standard PNG and Apple's CgBI variant

    A shallow embedding of [src/index.ts] (the detector predicates, the cursor
    [Reader], the chunk scan of [convert] and the pixel walk of
    [byteSwapIdat]) together with the properties the specification states
    about them.

    Conventions of the embedding
    - a [Uint8Array] is a [list byte]; [a.length] is [length a];
    - a JavaScript [number] that the program uses as an index, an offset or a
      length is a [nat] (every such value is a non-negative integer below
      2^53, so the arithmetic of the source is exact);
    - the argument of [toUint8Array] is a [Z], since the checksum primitive is
      external and nothing in the source constrains its sign;
    - [throw new Error(msg)] is the result [Throw (JsError msg)]; a rejected
      promise of the compression codec is [Throw CodecError];
    - the compression codec (pako, behind [lib/zlib.ts]) and the checksum
      primitive ([lib/crc.js]) are parameters of the development. *)

From Stdlib Require Import ZArith Lia.
From Stdlib Require Import Strings.Byte Strings.Ascii Strings.String.
From stdpp Require Import base list.

Local Open Scope nat_scope.

(** ** Byte arrays *)

Module Bytes.

(** [arr[i]] read from a typed array: [undefined] outside the array. *)
Definition get (a : list byte) (i : nat) : option byte := a !! i.

(** Storing a JavaScript value into a [Uint8Array] slot: [undefined] becomes
    [NaN] and is stored as [0]. *)
Definition toUint8 (v : option byte) : byte :=
  match v with
  | Some b => b
  | None => x00
  end.

(** [arr[i] = v]: a store outside the array is ignored, the array never
    grows. *)
Definition put (a : list byte) (i : nat) (v : option byte) : list byte :=
  <[i := toUint8 v]> a.

(** [new Uint8Array(n)]: zero filled. *)
Definition alloc (n : nat) : list byte := replicate n x00.

(** [a.subarray(b, e)] for non-negative integer [b] and [e]: both bounds are
    clamped to the length, and an empty view results when the clamped end is
    not after the clamped begin. *)
Definition subarray (a : list byte) (b e : nat) : list byte :=
  let beginIndex := Nat.min b (length a) in
  let endIndex := Nat.min e (length a) in
  take (endIndex - beginIndex) (drop beginIndex a).

(** Integer value stored in a slot from a [number]: reduction modulo 256. *)
Definition ofZ (v : Z) : byte :=
  match Byte.of_nat (Z.to_nat (v mod 256)) with
  | Some b => b
  | None => x00
  end.

End Bytes.

Import Bytes.

(** ** Constants of the format *)

Definition PNG_HEADER : list byte :=
  [x89; x50; x4e; x47; x0d; x0a; x1a; x0a].

Definition CGBI_CHUNK : list byte :=
  [x00; x00; x00; x04; x43; x67; x42; x49].

Definition CGBI_BGRA : list byte :=
  [x50; x00; x20; x06; x2c; xb8; x77; x66].

(** The tag literal written in front of the rebuilt image data,
    [new Uint8Array([0x49, 0x44, 0x41, 0x54])]. *)
Definition IDAT_TAG : list byte := [x49; x44; x41; x54].

(** The terminal chunk literal of [convert]. *)
Definition IEND_CHUNK : list byte :=
  [x00; x00; x00; x00;
   x49; x45; x4e; x44;
   xae; x42; x60; x82].

(** ** Helpers *)

(** The element-wise loop of [isEquals], entered once the lengths agree. *)
Fixpoint isEquals_loop (a b : list byte) : bool :=
  match a, b with
  | x :: a', y :: b' =>
      if negb (Byte.eqb x y) then false else isEquals_loop a' b'
  | _, _ => true
  end.

Definition isEquals (a b : list byte) : bool :=
  if negb (length a =? length b) then false else isEquals_loop a b.

(** [toNumber]: the loop [result = result * 256 + data[i]].  The source
    accumulates in a double, which is exact below 2^53; the accumulator here
    is a natural number, which agrees with it on arrays of at most 6 bytes
    (every value is then below 2^48).  [convert] decodes fields of at most
    4 bytes. *)
Fixpoint toNumber_loop (data : list byte) (result : nat) : nat :=
  match data with
  | [] => result
  | d :: data' => toNumber_loop data' (result * 256 + Byte.to_nat d)
  end.

Definition toNumber (data : list byte) : nat := toNumber_loop data 0.

(** [toUint8Array]: the loop runs [i = 3, 2, 1, 0]; [data % 256] is the
    truncated remainder of JavaScript and [Math.floor(data / 256)] the floored
    quotient. *)
Definition toUint8Array (data : Z) : list byte :=
  let result := alloc 4 in
  let result := <[3 := ofZ (Z.rem data 256)]> result in
  let data := (data / 256)%Z in
  let result := <[2 := ofZ (Z.rem data 256)]> result in
  let data := (data / 256)%Z in
  let result := <[1 := ofZ (Z.rem data 256)]> result in
  let data := (data / 256)%Z in
  let result := <[0 := ofZ (Z.rem data 256)]> result in
  result.

(** [result.set(array, offset)] on a target that is long enough. *)
Definition setAt (result array : list byte) (offset : nat) : list byte :=
  take offset result ++ array ++ drop (offset + length array) result.

Definition concatUint8Array (arrays : list (list byte)) : list byte :=
  let length := foldl (fun acc array => acc + List.length array) 0 arrays in
  let result := alloc length in
  fst (foldl (fun '(result, offset) array =>
                (setAt result array offset, offset + List.length array))
             (result, 0) arrays).

(** [String.fromCharCode(...bytes)]: one code unit per byte. *)
Definition fromCharCode (bytes : list byte) : string :=
  string_of_list_byte bytes.

(** ** Format detector *)

Definition hasPngHeader (data : list byte) : bool :=
  isEquals (subarray data 0 8) PNG_HEADER.

Definition hasCgbiChunk (data : list byte) (offset : nat) : bool :=
  isEquals (subarray data offset (offset + 8)) CGBI_CHUNK.

(** The default value of the [offset] argument of [hasCgbiChunk]. *)
Definition defaultOffset : nat := 8.

Definition isStandardPng (data : list byte) : bool :=
  hasPngHeader data && negb (hasCgbiChunk data defaultOffset).

Definition isCgbiPng (data : list byte) : bool :=
  hasPngHeader data && hasCgbiChunk data defaultOffset.

(** ** Binary cursor reader *)

Record Reader := mkReader { buffer : list byte; offset : nat }.

(** [new Reader(buffer)]: the offset defaults to 0. *)
Definition newReader (buffer : list byte) : Reader := mkReader buffer 0.

(** [reader.read(bytes)]: advance, then return the view that ends at the new
    offset. *)
Definition read (bytes : nat) (this : Reader) : list byte * Reader :=
  let this := mkReader (buffer this) (offset this + bytes) in
  (subarray (buffer this) (offset this - bytes) (offset this), this).

(** ** Outcome of an operation that may throw *)

Inductive Error :=
| JsError (message : string)      (* [throw new Error(message)] *)
| CodecError                      (* the codec promise is rejected *)
| TypeError                       (* destructuring [undefined] *)
| OutOfFuel.                      (* bound of the scan loop reached *)

Inductive Result (A : Type) :=
| Ok (value : A)
| Throw (e : Error).

Arguments Ok {A} value.
Arguments Throw {A} e.

#[export] Instance Result_bind : MBind Result :=
  fun A B k r =>
    match r with
    | Ok a => k a
    | Throw e => Throw e
    end.

(** [await codec(buf)]: a rejected promise rethrows at the [await]. *)
Definition await (r : option (list byte)) : Result (list byte) :=
  match r with
  | Some out => Ok out
  | None => Throw CodecError
  end.

(** ** Diagnostics of the header check *)

Definition hexDigit (n : nat) : ascii :=
  nth n (list_ascii_of_string "0123456789abcdef") "0"%char.

(** [byte.toString(16)]: no leading zero. *)
Definition toString16 (b : byte) : string :=
  let n := Byte.to_nat b in
  if n <? 16 then String (hexDigit n) EmptyString
  else String (hexDigit (n / 16)) (String (hexDigit (n mod 16)) EmptyString).

(** [s.padStart(targetLength, fill)] for a one character [fill]. *)
Definition padStart (targetLength : nat) (fill : ascii) (s : string) : string :=
  String.append
    (string_of_list_ascii (replicate (targetLength - String.length s) fill))
    s.

(** [parts.join(sep)] *)
Definition join (sep : string) (parts : list string) : string :=
  String.concat sep parts.

(** [byte.toString(16).padStart(2, "0")] *)
Definition hexOfByte (b : byte) : string := padStart 2 "0"%char (toString16 b).

Definition headerTypeHex (headerTypeRaw : list byte) : list string :=
  hexOfByte <$> headerTypeRaw.

Definition invalidHeaderMessage (headerTypeRaw : list byte) : string :=
  String.append "Invalid PNG header: " (join " " (headerTypeHex headerTypeRaw)).

(** ** Pixel byte-swap walk (the loops of [byteSwapIdat]) *)

(** One round of the inner loop body. *)
Definition swapPixel (decompressed : list byte) (st : list byte * nat)
  : list byte * nat :=
  let '(newIdat, offset) := st in
  let newIdat := put newIdat offset (get decompressed (offset + 2)) in
  let newIdat := put newIdat (offset + 1) (get decompressed (offset + 1)) in
  let newIdat := put newIdat (offset + 2) (get decompressed offset) in
  let newIdat := put newIdat (offset + 3) (get decompressed (offset + 3)) in
  (newIdat, offset + 4).

(** [for (let j = 0; j < width; j++)] *)
Fixpoint swapPixels (width : nat) (decompressed : list byte)
    (st : list byte * nat) : list byte * nat :=
  match width with
  | 0 => st
  | S width' => swapPixels width' decompressed (swapPixel decompressed st)
  end.

(** One round of the outer loop body. *)
Definition swapScanline (width : nat) (decompressed : list byte)
    (st : list byte * nat) : list byte * nat :=
  let '(newIdat, offset) := st in
  let newIdat := put newIdat offset (get decompressed offset) in
  let offset := offset + 1 in
  swapPixels width decompressed (newIdat, offset).

(** [for (let i = 0; i < height; i++)] *)
Fixpoint swapScanlines (height width : nat) (decompressed : list byte)
    (st : list byte * nat) : list byte * nat :=
  match height with
  | 0 => st
  | S height' =>
      swapScanlines height' width decompressed
        (swapScanline width decompressed st)
  end.

(** Lines 119 to 131 of [byteSwapIdat]: from the inflated stream to the
    buffer handed to the deflate call. *)
Definition byteSwap (decompressed : list byte) (width height : nat)
  : list byte :=
  let newIdat := alloc (length decompressed) in
  let offset := 0 in
  fst (swapScanlines height width decompressed (newIdat, offset)).

(** The number of bytes the walk visits. *)
Definition geometry (width height : nat) : nat := height * (1 + 4 * width).

(** *** Functional description of the walk, used in the proofs *)

Fixpoint swapBGRA (l : list byte) : list byte :=
  match l with
  | r :: g :: b :: a :: l' => b :: g :: r :: a :: swapBGRA l'
  | _ => l
  end.

Fixpoint swapRows (height width : nat) (l : list byte) : list byte :=
  match height, l with
  | S height', f :: l' =>
      f :: swapBGRA (take (4 * width) l')
        ++ swapRows height' width (drop (4 * width) l')
  | _, _ => []
  end.

(** ** Chunk scan of [convert] *)

Record PngHeaderData := mkPngHeaderData {
  width : nat;
  height : nat;
  bitDepth : option byte;
  colorType : option byte;
  compressMethod : option byte;
  filterMethod : option byte;
  interlaceMethod : option byte
}.

(** The [while (reader.offset < data.length)] loop.  Every round advances the
    offset by at least 12, so [S (length data)] rounds of [fuel] are never
    used up (lemma [scanChunks_fuel]); [None] stands for a bound that was
    too small. *)
Fixpoint scanChunks (fuel : nat) (data : list byte) (reader : Reader)
    (result idat : list (list byte))
  : option (Reader * list (list byte) * list (list byte)) :=
  match fuel with
  | 0 => None
  | S fuel' =>
      if negb (offset reader <? length data) then Some (reader, result, idat)
      else
        let '(length, reader) := read 4 reader in
        let '(chunkTypeRaw, reader) := read 4 reader in
        let chunkType := fromCharCode chunkTypeRaw in
        let '(chunkData, reader) := read (toNumber length) reader in
        let '(crc, reader) := read 4 reader in
        if String.eqb chunkType "IDAT" then
          scanChunks fuel' data reader result (idat ++ [chunkData])
        else if String.eqb chunkType "iDOT" then
          scanChunks fuel' data reader result idat
        else if String.eqb chunkType "IEND" then
          Some (reader, result, idat)
        else
          scanChunks fuel' data reader
            (result ++ [length; chunkTypeRaw; chunkData; crc]) idat
  end.

(** ** Compression codec and checksum: the imported functions *)

Module Zlib.

(** The four exports of [lib/zlib.ts]; [None] is a rejected promise. *)
Record t := mk {
  deflate : list byte → option (list byte);
  deflateRaw : list byte → option (list byte);
  inflate : list byte → option (list byte);
  inflateRaw : list byte → option (list byte)
}.

End Zlib.

(** An entry of [byteSwapFunctionMap]. *)
Record FunctionPair := mkFunctionPair {
  inflate : list byte → option (list byte);
  deflate : list byte → option (list byte)
}.

(** ** The chunk view of a byte stream (specification side)

    The specification describes the input as a sequence of chunks, each
    decoded as a 4-byte length, a 4-byte tag, the payload and a 4-byte CRC,
    read until the input is exhausted or an IEND tag is seen.  These
    definitions follow that description; the theorems relate them to the
    loop of the source. *)

Record Chunk := mkChunk {
  lengthField : list byte;
  typeTag : list byte;
  payload : list byte;
  crc : list byte
}.

(** The raw bytes of a chunk. *)
Definition chunkBytes (c : Chunk) : list byte :=
  lengthField c ++ typeTag c ++ payload c ++ crc c.

(** The same bytes as the four arrays the scan pushes. *)
Definition chunkPieces (c : Chunk) : list (list byte) :=
  [lengthField c; typeTag c; payload c; crc c].

Definition decodeChunk (reader : Reader) : Chunk * Reader :=
  let '(len, reader) := read 4 reader in
  let '(tag, reader) := read 4 reader in
  let '(body, reader) := read (toNumber len) reader in
  let '(sum, reader) := read 4 reader in
  (mkChunk len tag body sum, reader).

Definition hasType (tag : string) (c : Chunk) : bool :=
  String.eqb (fromCharCode (typeTag c)) tag.

Fixpoint chunksFrom (fuel : nat) (reader : Reader) : list Chunk :=
  match fuel with
  | 0 => []
  | S fuel' =>
      if offset reader <? length (buffer reader) then
        let '(c, reader) := decodeChunk reader in
        if hasType "IEND" c then [] else c :: chunksFrom fuel' reader
      else []
  end.

(** The chunks of [data] from byte [start] on, up to the first IEND. *)
Definition scannedChunks (data : list byte) (start : nat) : list Chunk :=
  chunksFrom (S (length data)) (mkReader data start).

(** Chunks of the scan that are copied to the output: every tag but "IDAT"
    and "iDOT" (the scan itself stops at "IEND"). *)
Definition isPassThrough (c : Chunk) : bool :=
  negb (hasType "IDAT" c) && negb (hasType "iDOT" c).

(** Pass-through chunks in the sense of the data model of the specification:
    any chunk other than IHDR, IDAT, iDOT and IEND. *)
Definition isAncillary (c : Chunk) : bool :=
  negb (hasType "IHDR" c) && negb (hasType "IDAT" c)
  && negb (hasType "iDOT" c) && negb (hasType "IEND" c).

(** A chunk whose four fields are complete and whose length field counts the
    payload. *)
Definition wellFramed (c : Chunk) : Prop :=
  length (lengthField c) = 4 ∧ length (typeTag c) = 4
  ∧ toNumber (lengthField c) = length (payload c) ∧ length (crc c) = 4.

(** [cs] occur in [out] as disjoint byte ranges, in the order of [cs]. *)
Inductive embedded : list Chunk → list byte → Prop :=
| embedded_nil out : embedded [] out
| embedded_cons c cs before rest :
    embedded cs rest → embedded (c :: cs) (before ++ chunkBytes c ++ rest).

(** Where the IHDR chunk is read: after the magic header, and after the
    16 bytes of the CgBI marker when the input carries it. *)
Definition headerStart (data : list byte) : nat :=
  if hasCgbiChunk data 8 then 24 else 8.

(** The chunk [convert] reads as IHDR. *)
Definition headerChunk (data : list byte) : Chunk :=
  fst (decodeChunk (mkReader data (headerStart data))).

(** The byte offset at which the scan loop starts. *)
Definition scanStart (data : list byte) : nat :=
  headerStart data + 4 + 4 + toNumber (lengthField (headerChunk data)) + 4.

(** The frame [convert] builds around the rebuilt image data. *)
Definition idatFrame (checksum : Z) (newIdat : list byte) : list byte :=
  toUint8Array (Z.of_nat (length newIdat)) ++ IDAT_TAG ++ newIdat
  ++ toUint8Array checksum.

(** The marker [convert] inserts: none when the input carries one. *)
Definition insertedMarker (data : list byte) : list byte :=
  if hasCgbiChunk data 8 then [] else CGBI_CHUNK ++ CGBI_BGRA.

(** The chunks the scan loop of [convert] walks over. *)
Definition restChunks (data : list byte) : list Chunk :=
  scannedChunks data (scanStart data).

(** The concatenated IDAT payloads, in encounter order. *)
Definition rawIdat (data : list byte) : list byte :=
  concat (payload <$> List.filter (hasType "IDAT") (restChunks data)).

Definition headerWidth (data : list byte) : nat :=
  toNumber (subarray (payload (headerChunk data)) 0 4).

Definition headerHeight (data : list byte) : nat :=
  toNumber (subarray (payload (headerChunk data)) 4 8).

(** The layout of the output, given the rebuilt image data and its
    checksum. *)
Definition assemble (data newIdat : list byte) (checksum : Z) : list byte :=
  PNG_HEADER
  ++ insertedMarker data
  ++ chunkBytes (headerChunk data)
  ++ concat (chunkBytes <$> List.filter isPassThrough (restChunks data))
  ++ idatFrame checksum newIdat
  ++ IEND_CHUNK.

(** The inserted marker, read as a chunk: length 4, tag "CgBI". *)
Definition cgbiMarkerChunk : Chunk :=
  mkChunk [x00; x00; x00; x04] [x43; x67; x42; x49]
          [x50; x00; x20; x06] [x2c; xb8; x77; x66].

(** The terminal chunk literal, read as a chunk: empty payload. *)
Definition iendChunk : Chunk :=
  mkChunk [x00; x00; x00; x00] [x49; x45; x4e; x44] [] [xae; x42; x60; x82].

(** The rebuilt image data as a chunk. *)
Definition idatChunk (checksum : Z) (newIdat : list byte) : Chunk :=
  mkChunk (toUint8Array (Z.of_nat (length newIdat))) IDAT_TAG newIdat
          (toUint8Array checksum).

(** The chunks [convert] writes after the magic header, in order. *)
Definition emittedChunks (data newIdat : list byte) (checksum : Z)
  : list Chunk :=
  (if hasCgbiChunk data 8 then [] else [cgbiMarkerChunk])
  ++ headerChunk data
  :: List.filter isPassThrough (restChunks data)
  ++ [idatChunk checksum newIdat; iendChunk].

(** Reading back the two hexadecimal digits of a rendered byte. *)
Definition hexValue (c : ascii) : option nat :=
  let n := nat_of_ascii c in
  if (48 <=? n) && (n <=? 57) then Some (n - 48)
  else if (97 <=? n) && (n <=? 102) then Some (n - 87)
  else None.

Definition parseHex2 (s : string) : option nat :=
  match s with
  | String hi (String lo EmptyString) =>
      match hexValue hi, hexValue lo with
      | Some h, Some l => Some (16 * h + l)
      | _, _ => None
      end
  | _ => None
  end.

(** The tag bytes of "IHDR". *)
Definition IHDR_TAG : list byte := [x49; x48; x44; x52].

(** A byte stream laid out as the magic header, an optional marker, the
    IHDR chunk, further chunks and a tail. *)
Definition pngBytes (marker : list byte) (ihdr : Chunk) (chunks : list Chunk)
    (tail : list byte) : list byte :=
  PNG_HEADER ++ marker ++ chunkBytes ihdr
  ++ concat (chunkBytes <$> chunks) ++ tail.

(** A tail at which the scan stops: the end of the input, or the head of an
    IEND chunk. *)
Definition tailStops (tail : list byte) : Prop :=
  tail = [] ∨ ∃ len rest, length len = 4
                          ∧ tail = len ++ [x49; x45; x4e; x44] ++ rest.

(** A marker slot: empty, or 16 bytes that start with the CgBI framing. *)
Definition markerSlot (marker : list byte) : Prop :=
  marker = [] ∨ (take 8 marker = CGBI_CHUNK ∧ length marker = 16).

(** An input that is a stream of complete chunks. *)
Definition framedInput (data : list byte) : Prop :=
  ∃ marker ihdr chunks tail,
    data = pngBytes marker ihdr chunks tail
    ∧ markerSlot marker ∧ wellFramed ihdr ∧ typeTag ihdr = IHDR_TAG
    ∧ Forall wellFramed chunks
    ∧ Forall (fun c => hasType "IEND" c = false) chunks
    ∧ tailStops tail.

(** The chunk content of a stream outside the image data: the IHDR chunk
    and the scanned chunks that are not IDAT chunks, in file order.  The
    magic header and the marker are not among them: the scan starts behind
    them. *)
Definition chunkContent (data : list byte) : list Chunk :=
  headerChunk data
  :: List.filter (fun c => negb (hasType "IDAT" c)) (restChunks data).

(** The round-trip property of the specification, in its words: [P] and [Q]
    are "equivalent for all chunk content except the header/CgBI markers and
    the exact compressed-byte encoding of IDAT". *)
Definition sameChunkContent (P Q : list byte) : Prop :=
  chunkContent P = chunkContent Q.

(** ** Sample data for the worked examples *)

Module Sample.

(** A storing codec: a raw stream is the data itself, a zlib stream is the
    data behind the two header bytes 78 9C. *)
Definition zlib : Zlib.t :=
  Zlib.mk
    (fun data => Some (x78 :: x9c :: data))
    (fun data => Some data)
    (fun data =>
       match data with
       | x78 :: x9c :: rest => Some rest
       | _ => None
       end)
    (fun data => Some data).

(** A stand-in checksum: the sum of the payload bytes. *)
Definition calculateCRC (tag : string) (data : list byte) : Z :=
  Z.of_nat (foldr (fun b acc => Byte.to_nat b + acc) 0 data).

(** IHDR of a 2 x 1 image, bit depth 8, colour type 6, no interlacing. *)
Definition ihdr : Chunk :=
  mkChunk [x00; x00; x00; x0d] [x49; x48; x44; x52]
          [x00; x00; x00; x02; x00; x00; x00; x01; x08; x06; x00; x00; x00]
          [x11; x22; x33; x44].

(** One filter byte and two RGBA pixels. *)
Definition pixels : list byte :=
  [x00; x01; x02; x03; x04; x05; x06; x07; x08].

Definition tEXt : Chunk :=
  mkChunk [x00; x00; x00; x02] [x74; x45; x58; x74] [x41; x42]
          [x09; x09; x09; x09].

Definition iDOT : Chunk :=
  mkChunk [x00; x00; x00; x01] [x69; x44; x4f; x54] [x07]
          [x0b; x0b; x0b; x0b].

Definition idat1 : Chunk :=
  mkChunk [x00; x00; x00; x05] [x49; x44; x41; x54]
          [x78; x9c; x00; x01; x02] [x0a; x0a; x0a; x0a].

Definition idat2 : Chunk :=
  mkChunk [x00; x00; x00; x06] [x49; x44; x41; x54]
          [x03; x04; x05; x06; x07; x08] [x0c; x0c; x0c; x0c].

Definition tIME : Chunk :=
  mkChunk [x00; x00; x00; x01] [x74; x49; x4d; x45] [x2a]
          [x0d; x0d; x0d; x0d].

Definition chunks : list Chunk := [tEXt; iDOT; idat1; idat2; tIME].

Definition standardPng : list byte := pngBytes [] ihdr chunks IEND_CHUNK.

(** The pixels with red and blue exchanged. *)
Definition swapped : list byte :=
  [x00; x03; x02; x01; x04; x07; x06; x05; x08].

(** What [convert] makes of [standardPng] with the sample codec. *)
Definition cgbiPng : list byte :=
  pngBytes (CGBI_CHUNK ++ CGBI_BGRA) ihdr
    [tEXt; tIME; idatChunk (calculateCRC "IDAT" swapped) swapped]
    IEND_CHUNK.

(** The magic header followed by a chunk tagged "IDAT". *)
Definition idatFirst : list byte :=
  PNG_HEADER ++ [x00; x00; x00; x0d; x49; x44; x41; x54; x00; x00].

(** Not a PNG: the second byte of the magic header is wrong. *)
Definition notPng : list byte :=
  [x89; x51; x4e; x47; x0d; x0a; x1a; x0a; x00; x00; x00; x0d].

(** An inflated stream two bytes longer than the 2 x 1 geometry. *)
Definition longStream : list byte := pixels ++ [xaa; xbb].

(** An inflated stream that ends in the middle of the first pixel of a
    1 x 1 image. *)
Definition shortStream : list byte := [x00; x01; x02].

(** The image data of [chunks] in one IDAT chunk. *)
Definition idatWhole : Chunk :=
  mkChunk [x00; x00; x00; x0b] [x49; x44; x41; x54]
          [x78; x9c; x00; x01; x02; x03; x04; x05; x06; x07; x08]
          [x0e; x0e; x0e; x0e].

(** The chunks of [chunks] in another order, without iDOT and with the image
    data in one piece. *)
Definition chunksRegrouped : list Chunk := [idatWhole; tEXt; tIME].

(** The chunks of [cgbiPng]. *)
Definition cgbiChunks : list Chunk :=
  [tEXt; tIME; idatChunk (calculateCRC "IDAT" swapped) swapped].

End Sample.

(** ** The converter *)

Section Converter.

(** [lib/zlib.ts] *)
Variable zlib : Zlib.t.

(** [calculateCRC] of [lib/crc.js]: the file is not part of the sources at
    hand, the function is a parameter. *)
Variable calculateCRC : string → list byte → Z.

Definition byteSwapFunctionMap : list FunctionPair :=
  [ {| inflate := Zlib.inflateRaw zlib; deflate := Zlib.deflate zlib |};
    {| inflate := Zlib.inflate zlib; deflate := Zlib.deflateRaw zlib |} ].

Definition byteSwapIdat (idat : list byte) (width height : nat)
    (isCgbi : bool) : Result (list byte) :=
  match byteSwapFunctionMap !! (if isCgbi then 0 else 1) with
  | None => Throw TypeError
  | Some {| inflate := inflate; deflate := deflate |} =>
      decompressed ← await (inflate idat);
      let newIdat := byteSwap decompressed width height in
      await (deflate newIdat)
  end.

Definition convert (data : list byte) : Result (list byte) :=
  let isCgbi := false in
  let reader := newReader data in
  let result := [PNG_HEADER] in
  let '(magic, reader) := read 8 reader in
  if negb (hasPngHeader magic) then
    Throw (JsError "Data is not a PNG file.")
  else
    (* CgBI chunk *)
    let '(marker, reader) := read 8 reader in
    let '(isCgbi, reader, result) :=
      if hasCgbiChunk marker 0 then
        (true, mkReader (buffer reader) (offset reader + 8), result)
      else
        (isCgbi, mkReader (buffer reader) (offset reader - 8),
         (result ++ [CGBI_CHUNK]) ++ [CGBI_BGRA]) in
    (* IHDR chunk *)
    let '(headerLength, reader) := read 4 reader in
    let '(headerTypeRaw, reader) := read 4 reader in
    let headerType := fromCharCode headerTypeRaw in
    if negb (String.eqb headerType "IHDR") then
      Throw (JsError (invalidHeaderMessage headerTypeRaw))
    else
      let '(headerData, reader) := read (toNumber headerLength) reader in
      let '(headerCRC, reader) := read 4 reader in
      let header :=
        {| width := toNumber (subarray headerData 0 4);
           height := toNumber (subarray headerData 4 8);
           bitDepth := get headerData 8;
           colorType := get headerData 9;
           compressMethod := get headerData 10;
           filterMethod := get headerData 11;
           interlaceMethod := get headerData 12 |} in
      let result :=
        result ++ [headerLength; headerTypeRaw; headerData; headerCRC] in
      (* Rest of the chunks *)
      let idat : list (list byte) := [] in
      match scanChunks (S (length data)) data reader result idat with
      | None => Throw OutOfFuel
      | Some (reader, result, idat) =>
          let raw := concatUint8Array idat in
          newIdat ← byteSwapIdat raw (width header) (height header) isCgbi;
          let idatCRC := calculateCRC "IDAT" newIdat in
          let result :=
            result ++ [toUint8Array (Z.of_nat (length newIdat));
                       IDAT_TAG;
                       newIdat;
                       toUint8Array idatCRC;
                       IEND_CHUNK] in
          Ok (concatUint8Array result)
      end.

(** A valid standard PNG with one 32-bit colour type (8-bit RGBA) and no
    interlacing: magic header, IHDR, well framed chunks, IEND; its IDAT
    payloads inflate to [pixels], a stream of [height] scanlines of one
    filter byte and [width] 4-byte pixels. *)
Record StandardPng32 (P : list byte) (ihdr : Chunk) (chunks : list Chunk)
    (pixels : list byte) : Prop := mkStandardPng32 {
  std_bytes : P = pngBytes [] ihdr chunks IEND_CHUNK;
  std_ihdr_framed : wellFramed ihdr;
  std_ihdr_tag : typeTag ihdr = IHDR_TAG;
  std_ihdr_length : length (payload ihdr) = 13;
  std_bitDepth : payload ihdr !! 8 = Some x08;
  std_colorType : payload ihdr !! 9 = Some x06;
  std_interlaceMethod : payload ihdr !! 12 = Some x00;
  std_chunks_framed : Forall wellFramed chunks;
  std_chunks_before_IEND : Forall (fun c => hasType "IEND" c = false) chunks;
  std_pixels :
    Zlib.inflate zlib
      (concat (payload <$> List.filter (hasType "IDAT") chunks))
    = Some pixels;
  std_geometry :
    length pixels
    = geometry (toNumber (subarray (payload ihdr) 0 4))
        (toNumber (subarray (payload ihdr) 4 8))
}.

(** The CgBI counterpart: the marker, then the same layout; the IDAT
    payloads are a raw deflate stream that inflates to [pixels]. *)
Record CgbiPng32 (C marker : list byte) (ihdr : Chunk) (chunks : list Chunk)
    (pixels : list byte) : Prop := mkCgbiPng32 {
  cgbi_bytes : C = pngBytes marker ihdr chunks IEND_CHUNK;
  cgbi_marker : take 8 marker = CGBI_CHUNK ∧ length marker = 16;
  cgbi_ihdr_framed : wellFramed ihdr;
  cgbi_ihdr_tag : typeTag ihdr = IHDR_TAG;
  cgbi_chunks_framed : Forall wellFramed chunks;
  cgbi_chunks_before_IEND : Forall (fun c => hasType "IEND" c = false) chunks;
  cgbi_pixels :
    Zlib.inflateRaw zlib
      (concat (payload <$> List.filter (hasType "IDAT") chunks))
    = Some pixels;
  cgbi_geometry :
    length pixels
    = geometry (toNumber (subarray (payload ihdr) 0 4))
        (toNumber (subarray (payload ihdr) 4 8))
}.

(** ** Basic facts *)

Lemma subarray_take_drop (a : list byte) (b e : nat) :
  subarray a b e = take (e - b) (drop b a).
Proof.
  unfold subarray.
  destruct (Nat.le_gt_cases b (length a)) as [Hb | Hb].
  - rewrite (Nat.min_l b) by lia.
    destruct (Nat.le_gt_cases e (length a)) as [He | He].
    + by rewrite (Nat.min_l e) by lia.
    + rewrite (Nat.min_r e) by lia.
      rewrite !take_ge; [done | rewrite length_drop; lia ..].
  - rewrite (Nat.min_r b) by lia.
    rewrite !drop_ge by lia. by rewrite !take_nil.
Qed.

Lemma length_subarray (a : list byte) (b e : nat) :
  length (subarray a b e) = Nat.min e (length a) - Nat.min b (length a).
Proof. unfold subarray. rewrite length_take, length_drop. lia. Qed.

Lemma isEquals_loop_eq (a b : list byte) :
  length a = length b → isEquals_loop a b = true ↔ a = b.
Proof.
  revert b. induction a as [| x a IH]; intros [| y b] Hlen; simpl in *; try done.
  destruct (Byte.eqb x y) eqn:E; simpl.
  - apply Byte.byte_dec_bl in E as ->.
    rewrite IH by lia. split; [by intros -> | by intros [= ->]].
  - apply Byte.eqb_false in E. split; [done | by intros [= -> _]].
Qed.

Lemma isEquals_true (a b : list byte) : isEquals a b = true ↔ a = b.
Proof.
  unfold isEquals. destruct (length a =? length b) eqn:E; simpl.
  - apply Nat.eqb_eq in E. by apply isEquals_loop_eq.
  - apply Nat.eqb_neq in E. split; [done | by intros ->].
Qed.

Lemma isEquals_false (a b : list byte) : isEquals a b = false ↔ a ≠ b.
Proof.
  rewrite <- isEquals_true. destruct (isEquals a b); split; congruence.
Qed.

(** ** The walk on buffers of valid geometry *)

Lemma swapBGRA_length (l : list byte) : length (swapBGRA l) = length l.
Proof.
  induction l as [l IH] using (induction_ltof1 _ (@length byte)).
  unfold ltof in IH.
  destruct l as [| r [| g [| b [| a l']]]]; simpl; try done.
  rewrite IH; simpl; lia.
Qed.

Lemma swapBGRA_involutive (l : list byte) : swapBGRA (swapBGRA l) = l.
Proof.
  induction l as [l IH] using (induction_ltof1 _ (@length byte)).
  unfold ltof in IH.
  destruct l as [| r [| g [| b [| a l']]]]; simpl; try done.
  rewrite IH; simpl; [done | lia].
Qed.

Lemma swapRows_length (height width : nat) (l : list byte) :
  length l = geometry width height →
  length (swapRows height width l) = length l.
Proof.
  unfold geometry. revert l.
  induction height as [| height IH]; intros l Hl; simpl in *.
  - by destruct l.
  - destruct l as [| f l']; simpl in *; [lia |].
    rewrite length_app, swapBGRA_length, length_take, IH;
      rewrite ?length_drop; lia.
Qed.

Lemma swapRows_involutive (height width : nat) (l : list byte) :
  length l = geometry width height →
  swapRows height width (swapRows height width l) = l.
Proof.
  unfold geometry. revert l.
  induction height as [| height IH]; intros l Hl; simpl in *.
  - by destruct l.
  - destruct l as [| f l']; simpl in *; [lia |].
    assert (Hpx : length (swapBGRA (take (4 * width) l')) = 4 * width).
    { rewrite swapBGRA_length, length_take. lia. }
    rewrite take_app_length', drop_app_length' by (simpl in Hpx; lia).
    rewrite swapBGRA_involutive, IH by (rewrite length_drop; lia).
    by rewrite take_drop.
Qed.

(** *** The loops compute the functional description

    Invariant of the walk: the output buffer is the transformed prefix [done]
    followed by untouched zero slots, and the offset is [length done]. *)

Lemma put_at (done rest : list byte) (n k : nat) (v : option byte) :
  n = length done + k → put (done ++ rest) n v = done ++ put rest k v.
Proof. intros ->. unfold put. apply insert_app_r. Qed.

Lemma get_at (decompressed l : list byte) (n m k : nat) :
  drop n decompressed = l → m = n + k → get decompressed m = l !! k.
Proof. intros <- ->. unfold get. by rewrite lookup_drop. Qed.

Lemma swapPixel_spec (decompressed done zs rest : list byte) (r g b a : byte) :
  drop (length done) decompressed = r :: g :: b :: a :: rest →
  swapPixel decompressed (done ++ replicate 4 x00 ++ zs, length done)
  = ((done ++ [b; g; r; a]) ++ zs, length (done ++ [b; g; r; a])).
Proof.
  intros Hd. unfold swapPixel.
  rewrite (get_at _ _ _ (length done) 0 Hd) by lia.
  rewrite (get_at _ _ _ (length done + 1) 1 Hd) by lia.
  rewrite (get_at _ _ _ (length done + 2) 2 Hd) by lia.
  rewrite (get_at _ _ _ (length done + 3) 3 Hd) by lia.
  rewrite (put_at done _ (length done) 0) by lia.
  rewrite (put_at done _ (length done + 1) 1) by lia.
  rewrite (put_at done _ (length done + 2) 2) by lia.
  rewrite (put_at done _ (length done + 3) 3) by lia.
  rewrite length_app. simpl. by rewrite <- app_assoc.
Qed.

Lemma swapPixels_spec (width : nat) (decompressed : list byte) :
  ∀ done pxs rest zs : list byte,
    length pxs = 4 * width →
    drop (length done) decompressed = pxs ++ rest →
    swapPixels width decompressed
      (done ++ replicate (4 * width) x00 ++ zs, length done)
    = ((done ++ swapBGRA pxs) ++ zs, length (done ++ swapBGRA pxs)).
Proof.
  induction width as [| width IH]; intros done pxs rest zs Hlen Hd.
  - destruct pxs; [| simpl in Hlen; lia]. simpl. by rewrite app_nil_r.
  - destruct pxs as [| r [| g [| b [| a pxs']]]]; simpl in Hlen; try lia.
    replace (4 * S width) with (4 + 4 * width) by lia.
    rewrite replicate_add, <- (app_assoc (replicate 4 x00)).
    cbn [swapPixels]. rewrite (swapPixel_spec _ _ _ (pxs' ++ rest) r g b a) by done.
    rewrite (IH _ pxs' rest).
    + simpl. by rewrite <- !app_assoc.
    + lia.
    + rewrite length_app. simpl.
      rewrite <- drop_drop, Hd. done.
Qed.

Lemma swapScanline_spec (width : nat) (decompressed : list byte)
    (done pxs rest zs : list byte) (f : byte) :
  length pxs = 4 * width →
  drop (length done) decompressed = f :: pxs ++ rest →
  swapScanline width decompressed
    (done ++ replicate (1 + 4 * width) x00 ++ zs, length done)
  = ((done ++ f :: swapBGRA pxs) ++ zs, length (done ++ f :: swapBGRA pxs)).
Proof.
  intros Hlen Hd. unfold swapScanline.
  rewrite (get_at _ _ _ (length done) 0 Hd) by lia.
  rewrite (put_at done _ (length done) 0) by lia.
  rewrite replicate_add, <- (app_assoc (replicate 1 x00)).
  cbn [replicate app put toUint8 lookup list_lookup insert list_insert].
  replace (done ++ f :: replicate (4 * width) x00 ++ zs)
    with ((done ++ [f]) ++ replicate (4 * width) x00 ++ zs)
    by (by rewrite <- app_assoc).
  replace (length done + 1) with (length (done ++ [f]))
    by (rewrite length_app; simpl; lia).
  rewrite (swapPixels_spec _ _ _ pxs rest).
  - by rewrite <- !app_assoc.
  - done.
  - rewrite length_app. simpl. rewrite <- drop_drop, Hd. done.
Qed.


Lemma swapScanlines_spec (height width : nat) (decompressed : list byte) :
  ∀ done rows rest zs : list byte,
    length rows = geometry width height →
    drop (length done) decompressed = rows ++ rest →
    swapScanlines height width decompressed
      (done ++ replicate (geometry width height) x00 ++ zs, length done)
    = ((done ++ swapRows height width rows) ++ zs,
       length (done ++ swapRows height width rows)).
Proof.
  unfold geometry.
  induction height as [| height IH]; intros done rows rest zs Hlen Hd.
  - destruct rows; [| simpl in Hlen; lia]. simpl. by rewrite app_nil_r.
  - destruct rows as [| f rows']; [simpl in Hlen; lia |].
    assert (Hrows : length rows' = 4 * width + height * (1 + 4 * width))
      by (simpl in Hlen; lia).
    replace (S height * (1 + 4 * width))
      with ((1 + 4 * width) + height * (1 + 4 * width)) by lia.
    rewrite replicate_add, <- (app_assoc (replicate (1 + 4 * width) x00)).
    cbn [swapScanlines].
    rewrite (swapScanline_spec _ _ _ (take (4 * width) rows')
               (drop (4 * width) rows' ++ rest) _ f).
    + rewrite (IH _ (drop (4 * width) rows') rest).
      * cbn [swapRows]. rewrite <- !app_assoc. cbn [app]. by rewrite <- ?app_assoc.
      * rewrite length_drop. lia.
      * rewrite length_app. cbn [length].
        rewrite swapBGRA_length, length_take, Nat.min_l by lia.
        rewrite <- drop_drop, Hd. cbn [drop app].
        rewrite drop_app_le by lia. done.
    + rewrite length_take. lia.
    + rewrite Hd, app_assoc, take_drop. done.
Qed.
(** On a stream at least as long as the geometry, the walk transforms the
    first [geometry width height] bytes and leaves zeros behind them. *)
Lemma byteSwap_spec (decompressed : list byte) (width height : nat) :
  geometry width height ≤ length decompressed →
  byteSwap decompressed width height
  = swapRows height width (take (geometry width height) decompressed)
    ++ replicate (length decompressed - geometry width height) x00.
Proof.
  intros Hle. unfold byteSwap, alloc.
  replace (length decompressed)
    with (geometry width height + (length decompressed - geometry width height))
    at 1 by lia.
  rewrite replicate_add.
  pose proof (swapScanlines_spec height width decompressed []
                (take (geometry width height) decompressed)
                (drop (geometry width height) decompressed)
                (replicate (length decompressed - geometry width height) x00))
    as H.
  simpl in H. rewrite H; [done | |].
  - rewrite length_take. lia.
  - by rewrite take_drop.
Qed.

Lemma length_swapPixels (width : nat) (decompressed : list byte) :
  ∀ st, length (fst (swapPixels width decompressed st)) = length (fst st).
Proof.
  induction width as [| width IH]; intros [newIdat off]; [done |].
  cbn [swapPixels]. rewrite IH. unfold swapPixel, put. simpl.
  by rewrite !length_insert.
Qed.

Lemma length_swapScanlines (height width : nat) (decompressed : list byte) :
  ∀ st,
    length (fst (swapScanlines height width decompressed st)) = length (fst st).
Proof.
  induction height as [| height IH]; intros [newIdat off]; [done |].
  cbn [swapScanlines]. rewrite IH. unfold swapScanline.
  rewrite length_swapPixels. unfold put. simpl. by rewrite length_insert.
Qed.

Lemma length_byteSwap (decompressed : list byte) (width height : nat) :
  length (byteSwap decompressed width height) = length decompressed.
Proof.
  unfold byteSwap. rewrite length_swapScanlines. simpl.
  unfold alloc. by rewrite length_replicate.
Qed.

Lemma byteSwap_geometry (buffer : list byte) (width height : nat) :
  length buffer = geometry width height →
  byteSwap buffer width height = swapRows height width buffer.
Proof.
  intros Hlen. rewrite byteSwap_spec by lia.
  rewrite take_ge by lia.
  replace (length buffer - geometry width height) with 0 by lia.
  apply app_nil_r.
Qed.

Lemma byteSwap_twice (buffer : list byte) (width height : nat) :
  length buffer = geometry width height →
  byteSwap (byteSwap buffer width height) width height = buffer.
Proof.
  intros Hlen.
  rewrite (byteSwap_geometry buffer) by done.
  rewrite byteSwap_geometry by (by rewrite swapRows_length).
  by apply swapRows_involutive.
Qed.

(** ** Facts about the helpers *)

Lemma subarray_subarray_0 (a : list byte) (b e n : nat) :
  n = e - b → subarray (subarray a b e) 0 n = subarray a b e.
Proof.
  intros ->. rewrite !subarray_take_drop. rewrite drop_0, Nat.sub_0_r.
  rewrite take_take. f_equal. lia.
Qed.

Lemma subarray_app (a : list byte) (b m e : nat) :
  b ≤ m → m ≤ e → subarray a b m ++ subarray a m e = subarray a b e.
Proof.
  intros Hbm Hme. rewrite !subarray_take_drop.
  replace (drop m a) with (drop (m - b) (drop b a))
    by (rewrite drop_drop; f_equal; lia).
  replace (e - b) with ((m - b) + (e - m)) by lia.
  by rewrite take_take_drop.
Qed.

Lemma subarray_middle (before x after : list byte) (b e : nat) :
  b = length before → e = b + length x →
  subarray (before ++ x ++ after) b e = x.
Proof.
  intros -> ->. rewrite subarray_take_drop.
  rewrite drop_app_length.
  replace (length before + length x - length before) with (length x) by lia.
  by rewrite take_app_length.
Qed.

Lemma read_eq (n : nat) (r : Reader) :
  read n r = (subarray (buffer r) (offset r) (offset r + n),
              mkReader (buffer r) (offset r + n)).
Proof.
  unfold read. cbn [buffer offset].
  by replace (offset r + n - n) with (offset r) by lia.
Qed.

Lemma hasPngHeader_view (data : list byte) :
  hasPngHeader (subarray data 0 8) = hasPngHeader data.
Proof. unfold hasPngHeader. by rewrite subarray_subarray_0. Qed.

Lemma hasCgbiChunk_view (data : list byte) :
  hasCgbiChunk (subarray data 8 16) 0 = hasCgbiChunk data 8.
Proof. unfold hasCgbiChunk. by rewrite subarray_subarray_0. Qed.

Lemma hasPngHeader_true (data : list byte) :
  hasPngHeader data = true ↔ take 8 data = PNG_HEADER.
Proof.
  unfold hasPngHeader. rewrite isEquals_true, subarray_take_drop.
  by rewrite drop_0.
Qed.

Lemma hasCgbiChunk_true (data : list byte) (offset : nat) :
  hasCgbiChunk data offset = true ↔ take 8 (drop offset data) = CGBI_CHUNK.
Proof.
  unfold hasCgbiChunk. rewrite isEquals_true, subarray_take_drop.
  by replace (offset + 8 - offset) with 8 by lia.
Qed.

(** The two loops of [concatUint8Array] compute the concatenation. *)
Lemma concatUint8Array_length_loop (arrays : list (list byte)) (acc : nat) :
  foldl (fun acc array => acc + length array) acc arrays
  = acc + length (concat arrays).
Proof.
  revert acc. induction arrays as [| a arrays IH]; intros acc; simpl.
  - lia.
  - rewrite IH, length_app. lia.
Qed.

Lemma concatUint8Array_copy_loop (arrays : list (list byte)) :
  ∀ done : list byte,
    fst (foldl (fun '(result, offset) array =>
                  (setAt result array offset, offset + length array))
           (done ++ replicate (length (concat arrays)) x00, length done)
           arrays)
    = done ++ concat arrays.
Proof.
  induction arrays as [| a arrays IH]; intros done; simpl.
  - done.
  - rewrite length_app, replicate_add.
    unfold setAt at 2.
    rewrite take_app_length, drop_app_add', drop_app_length'
      by (rewrite ?length_replicate; done).
    replace (length done + length a) with (length (done ++ a))
      by (by rewrite length_app).
    rewrite (app_assoc done a), IH. by rewrite <- app_assoc.
Qed.

Lemma concatUint8Array_concat (arrays : list (list byte)) :
  concatUint8Array arrays = concat arrays.
Proof.
  unfold concatUint8Array, alloc.
  rewrite concatUint8Array_length_loop. simpl.
  apply (concatUint8Array_copy_loop arrays []).
Qed.

(** ** The scan loop against the chunk view *)

Lemma decodeChunk_eq (data : list byte) (off : nat) :
  decodeChunk (mkReader data off)
  = let len := subarray data off (off + 4) in
    (mkChunk len
       (subarray data (off + 4) (off + 4 + 4))
       (subarray data (off + 4 + 4) (off + 4 + 4 + toNumber len))
       (subarray data (off + 4 + 4 + toNumber len)
          (off + 4 + 4 + toNumber len + 4)),
     mkReader data (off + 4 + 4 + toNumber len + 4)).
Proof. unfold decodeChunk. rewrite !read_eq. done. Qed.

Lemma concat_chunkPieces (cs : list Chunk) :
  concat (concat (chunkPieces <$> cs)) = concat (chunkBytes <$> cs).
Proof.
  induction cs as [| c cs IH]; [done |].
  rewrite !fmap_cons. cbn [concat]. rewrite concat_app, IH.
  unfold chunkPieces, chunkBytes. simpl. by rewrite app_nil_r, <- !app_assoc.
Qed.

Lemma tag_cases (ty : string) :
  (String.eqb ty "IDAT" = true ∧ String.eqb ty "iDOT" = false ∧ String.eqb ty "IEND" = false)
  ∨ (String.eqb ty "IDAT" = false ∧ String.eqb ty "iDOT" = true ∧ String.eqb ty "IEND" = false)
  ∨ (String.eqb ty "IDAT" = false ∧ String.eqb ty "iDOT" = false ∧ String.eqb ty "IEND" = true)
  ∨ (String.eqb ty "IDAT" = false ∧ String.eqb ty "iDOT" = false ∧ String.eqb ty "IEND" = false).
Proof.
  destruct (String.eqb ty "IDAT") eqn:E1;
    [apply String.eqb_eq in E1 as ->; by left |].
  destruct (String.eqb ty "iDOT") eqn:E2;
    [apply String.eqb_eq in E2 as ->; right; by left |].
  destruct (String.eqb ty "IEND") eqn:E3; right; right; [by left | by right].
Qed.

Lemma hasType_mk (ty : string) (len tag body sum : list byte) :
  hasType ty (mkChunk len tag body sum) = String.eqb (fromCharCode tag) ty.
Proof. done. Qed.

Lemma isPassThrough_mk (len tag body sum : list byte) :
  isPassThrough (mkChunk len tag body sum)
  = negb (String.eqb (fromCharCode tag) "IDAT")
    && negb (String.eqb (fromCharCode tag) "iDOT").
Proof. done. Qed.

Lemma scanChunks_chunksFrom (fuel : nat) (data : list byte) :
  ∀ (off : nat) (result idat : list (list byte)),
    length data - off < fuel →
    ∃ reader',
      scanChunks fuel data (mkReader data off) result idat
      = Some (reader',
              result ++ concat (chunkPieces <$>
                List.filter isPassThrough (chunksFrom fuel (mkReader data off))),
              idat ++ (payload <$>
                List.filter (hasType "IDAT") (chunksFrom fuel (mkReader data off)))).
Proof.
  induction fuel as [| fuel IH]; intros off result idat Hfuel; [lia |].
  cbn [scanChunks chunksFrom buffer offset].
  destruct (off <? length data) eqn:Hoff; cbn [negb].
  - apply Nat.ltb_lt in Hoff.
    rewrite decodeChunk_eq, !read_eq. cbn [buffer offset].
    cbv zeta.
    set (len := subarray data off (off + 4)).
    set (tag := subarray data (off + 4) (off + 4 + 4)).
    set (body := subarray data (off + 4 + 4) (off + 4 + 4 + toNumber len)).
    set (sum := subarray data (off + 4 + 4 + toNumber len)
                  (off + 4 + 4 + toNumber len + 4)).
    set (off' := off + 4 + 4 + toNumber len + 4).
    assert (Hfuel' : length data - off' < fuel) by (unfold off'; lia).
    rewrite !hasType_mk.
    destruct (tag_cases (fromCharCode tag))
      as [(E1 & E2 & E3) | [(E1 & E2 & E3) | [(E1 & E2 & E3) | (E1 & E2 & E3)]]];
      rewrite ?E1, ?E2, ?E3; cbn [List.filter];
      rewrite ?isPassThrough_mk, ?hasType_mk, ?E1, ?E2, ?E3;
      cbn [negb andb fmap list_fmap concat].
    + destruct (IH off' result (idat ++ [body]) Hfuel') as [r' ->].
      exists r'. cbn [payload]. by rewrite <- app_assoc.
    + destruct (IH off' result idat Hfuel') as [r' ->]. by exists r'.
    + eexists. by rewrite !app_nil_r.
    + destruct (IH off' (result ++ [len; tag; body; sum]) idat Hfuel')
        as [r' ->].
      exists r'. unfold chunkPieces at 2.
      cbn [lengthField typeTag payload crc]. by rewrite <- app_assoc.
  - eexists. cbn [List.filter fmap list_fmap concat]. by rewrite !app_nil_r.
Qed.

(** ** The master equation of [convert] *)

Lemma convert_eq (data : list byte) :
  convert data
  = if negb (hasPngHeader data) then Throw (JsError "Data is not a PNG file.")
    else if negb (hasType "IHDR" (headerChunk data)) then
      Throw (JsError (invalidHeaderMessage (typeTag (headerChunk data))))
    else
      newIdat ← byteSwapIdat (rawIdat data) (headerWidth data)
                  (headerHeight data) (hasCgbiChunk data 8);
      Ok (assemble data newIdat (calculateCRC "IDAT" newIdat)).
Proof.
  unfold convert, newReader. rewrite !read_eq. cbn [buffer offset].
  rewrite hasPngHeader_view.
  destruct (hasPngHeader data); cbn [negb]; [| done].
  change (0 + 8 + 8) with 16. change (0 + 8) with 8.
  rewrite hasCgbiChunk_view.
  unfold assemble, rawIdat, headerWidth, headerHeight, restChunks, scanStart,
    headerChunk, headerStart, insertedMarker, scannedChunks.
  destruct (hasCgbiChunk data 8);
    [change (16 + 8) with 24; set (hs := 24)
    | change (16 - 8) with 8; set (hs := 8)].
  all: rewrite decodeChunk_eq, !read_eq; cbn [buffer offset fst]; cbv zeta.
  all: rewrite hasType_mk; cbn [typeTag lengthField payload width height].
  all: set (len := subarray data hs (hs + 4)).
  all: set (tag := subarray data (hs + 4) (hs + 4 + 4)).
  all: set (body := subarray data (hs + 4 + 4) (hs + 4 + 4 + toNumber len)).
  all: set (sum := subarray data (hs + 4 + 4 + toNumber len)
                     (hs + 4 + 4 + toNumber len + 4)).
  all: destruct (String.eqb (fromCharCode tag) "IHDR"); cbn [negb]; [| done].
  all: match goal with
       | |- context [scanChunks ?f ?d (mkReader ?d ?o) ?r ?i] =>
           destruct (scanChunks_chunksFrom f d o r i) as [r' ->]; [lia |]
       end.
  all: rewrite concatUint8Array_concat; cbn [app].
  all: destruct (byteSwapIdat _ _ _ _) as [newIdat | e]; [| done].
  all: cbn [mbind Result_bind]; f_equal.
  all: rewrite concatUint8Array_concat; unfold idatFrame, chunkBytes.
  all: cbn [concat lengthField typeTag payload crc].
  all: rewrite concat_app, concat_chunkPieces; cbn [concat].
  all: by rewrite ?app_nil_r, <- ?app_assoc.
Qed.

(** The bound of the scan loop is never reached, and the codec table is
    always hit: [convert] ends with a result, an [Error] of its own or an
    error of the codec. *)
Lemma scanChunks_fuel (fuel : nat) (data : list byte) (off : nat)
    (result idat : list (list byte)) :
  length data - off < fuel →
  scanChunks fuel data (mkReader data off) result idat ≠ None.
Proof.
  intros Hfuel.
  by destruct (scanChunks_chunksFrom fuel data off result idat Hfuel)
    as [r' ->].
Qed.

Lemma byteSwapIdat_outcome (idat : list byte) (width height : nat)
    (isCgbi : bool) :
  (∃ newIdat, byteSwapIdat idat width height isCgbi = Ok newIdat)
  ∨ byteSwapIdat idat width height isCgbi = Throw CodecError.
Proof.
  unfold byteSwapIdat, byteSwapFunctionMap.
  destruct isCgbi; cbn [lookup list_lookup inflate deflate].
  - destruct (Zlib.inflateRaw zlib idat) as [d |];
      cbn [await mbind Result_bind]; [| by right].
    destruct (Zlib.deflate zlib _) as [z |]; cbn [await]; [left | right];
      eauto.
  - destruct (Zlib.inflate zlib idat) as [d |];
      cbn [await mbind Result_bind]; [| by right].
    destruct (Zlib.deflateRaw zlib _) as [z |]; cbn [await]; [left | right];
      eauto.
Qed.

Lemma convert_outcome (data : list byte) :
  (∃ out, convert data = Ok out)
  ∨ (∃ message, convert data = Throw (JsError message))
  ∨ convert data = Throw CodecError.
Proof.
  rewrite convert_eq.
  destruct (hasPngHeader data); cbn [negb]; [| right; left; eauto].
  destruct (hasType "IHDR" (headerChunk data)); cbn [negb];
    [| right; left; eauto].
  destruct (byteSwapIdat_outcome (rawIdat data) (headerWidth data)
              (headerHeight data) (hasCgbiChunk data 8)) as [[z ->] | ->];
    cbn [mbind Result_bind]; [left | right; right]; eauto.
Qed.

(** What a successful call went through. *)
Lemma convert_Ok_inv (data out : list byte) :
  convert data = Ok out →
  hasPngHeader data = true
  ∧ hasType "IHDR" (headerChunk data) = true
  ∧ ∃ newIdat,
      byteSwapIdat (rawIdat data) (headerWidth data) (headerHeight data)
        (hasCgbiChunk data 8) = Ok newIdat
      ∧ out = assemble data newIdat (calculateCRC "IDAT" newIdat).
Proof.
  rewrite convert_eq.
  destruct (hasPngHeader data); cbn [negb]; [| done].
  destruct (hasType "IHDR" (headerChunk data)); cbn [negb]; [| done].
  destruct (byteSwapIdat _ _ _ _) as [newIdat | e]; [| done].
  cbn [mbind Result_bind]. intros [= <-]. eauto.
Qed.

(** ** The 4-byte fields [toUint8Array] writes *)

Lemma to_nat_ofZ (v : Z) : Byte.to_nat (ofZ v) = Z.to_nat (v mod 256).
Proof.
  unfold ofZ.
  pose proof (Byte.to_of_nat_option_map (Z.to_nat (v mod 256))) as H.
  pose proof (Z.mod_pos_bound v 256 eq_refl) as Hb.
  destruct (Byte.of_nat (Z.to_nat (v mod 256))) as [b |]; simpl in H.
  - destruct (Nat.leb_spec (Z.to_nat (v mod 256)) 255); congruence.
  - destruct (Nat.leb_spec (Z.to_nat (v mod 256)) 255); [done | lia].
Qed.

Lemma toUint8Array_eq (data : Z) :
  toUint8Array data
  = [ofZ (Z.rem (data / 256 / 256 / 256) 256);
     ofZ (Z.rem (data / 256 / 256) 256);
     ofZ (Z.rem (data / 256) 256);
     ofZ (Z.rem data 256)].
Proof. done. Qed.

Lemma length_toUint8Array (data : Z) : length (toUint8Array data) = 4.
Proof. done. Qed.

Lemma to_nat_ofZ_rem (v : Z) :
  Z.of_nat (Byte.to_nat (ofZ (Z.rem v 256))) = (v mod 256)%Z.
Proof.
  rewrite to_nat_ofZ, Z2Nat.id by (apply Z.mod_pos_bound; lia).
  Z.to_euclidean_division_equations. lia.
Qed.

(** The four bytes [toUint8Array] returns spell its argument modulo 2^32,
    most significant byte first; [toNumber] reads the same value back. *)
Lemma toUint8Array_field (data : Z) :
  ∃ b0 b1 b2 b3,
    toUint8Array data = [b0; b1; b2; b3]
    ∧ (Z.of_nat (Byte.to_nat b0) * 2 ^ 24 + Z.of_nat (Byte.to_nat b1) * 2 ^ 16
       + Z.of_nat (Byte.to_nat b2) * 2 ^ 8 + Z.of_nat (Byte.to_nat b3)
       = data mod 2 ^ 32)%Z
    ∧ Z.of_nat (toNumber (toUint8Array data)) = (data mod 2 ^ 32)%Z.
Proof.
  clear zlib calculateCRC.
  rewrite toUint8Array_eq.
  eexists _, _, _, _. split; [reflexivity |].
  unfold toNumber. cbn [toNumber_loop].
  repeat first [rewrite Nat2Z.inj_add | rewrite Nat2Z.inj_mul].
  rewrite !to_nat_ofZ_rem.
  change (2 ^ 32)%Z with 4294967296%Z.
  change (2 ^ 24)%Z with 16777216%Z.
  change (2 ^ 16)%Z with 65536%Z.
  change (2 ^ 8)%Z with 256%Z.
  change (Z.of_nat 256) with 256%Z. change (Z.of_nat 0) with 0%Z.
  split; Z.div_mod_to_equations; lia.
Qed.

(** ** Properties of the detector *)

(** C5 (detection exclusivity, as amended): [isStandardPng] and [isCgbiPng]
    are never both true; both are false on a buffer that does not start with
    the 8-byte magic header, in particular on a buffer shorter than that
    window, where the comparison fails on the lengths and yields [false]
    rather than an error.  The marker comparison likewise yields [false] on
    a buffer that ends before its window does: [isCgbiPng] is false on every
    buffer shorter than 16 bytes, and [isStandardPng] is true on such a
    buffer when it starts with the magic header. *)
Theorem detection_exclusive (data : list byte) :
  isStandardPng data && isCgbiPng data = false
  ∧ (take 8 data ≠ PNG_HEADER →
     isStandardPng data = false ∧ isCgbiPng data = false)
  ∧ (length data < 8 →
     isStandardPng data = false ∧ isCgbiPng data = false)
  ∧ (∀ offset, length data < offset + 8 → hasCgbiChunk data offset = false)
  ∧ (length data < 16 → isCgbiPng data = false)
  ∧ (take 8 data = PNG_HEADER → length data < 16 →
     isStandardPng data = true).
Proof.
  assert (Hhdr : take 8 data ≠ PNG_HEADER → hasPngHeader data = false).
  { intros H. apply not_true_is_false. by rewrite hasPngHeader_true. }
  assert (Hshort : length data < 8 → take 8 data ≠ PNG_HEADER).
  { intros Hlen Heq. apply (f_equal length) in Heq.
    rewrite length_take in Heq.
    change (length PNG_HEADER) with 8 in Heq. lia. }
  assert (Hwin : ∀ offset,
             length data < offset + 8 → hasCgbiChunk data offset = false).
  { intros off Hlen. apply not_true_is_false. rewrite hasCgbiChunk_true.
    intros Heq. apply (f_equal length) in Heq.
    rewrite length_take, length_drop in Heq.
    change (length CGBI_CHUNK) with 8 in Heq. lia. }
  unfold isStandardPng, isCgbiPng, defaultOffset.
  split; [| split; [| split; [| split; [| split]]]].
  - by destruct (hasPngHeader data), (hasCgbiChunk data 8).
  - intros H. by rewrite (Hhdr H).
  - intros H. by rewrite (Hhdr (Hshort H)).
  - done.
  - intros H. rewrite (Hwin 8) by lia. by destruct (hasPngHeader data).
  - intros Hmagic H. apply hasPngHeader_true in Hmagic.
    rewrite Hmagic, (Hwin 8) by lia. done.
Qed.

(** ** Properties of the pixel walk *)

(** C3 (self-inverse byte swap): on a buffer of valid scanline geometry,
    length = height * (1 + 4 * width), the walk applied twice gives the
    buffer back, and each application keeps the length. *)
Theorem byteSwap_self_inverse (buffer : list byte) (width height : nat) :
  length buffer = height * (1 + 4 * width) →
  byteSwap (byteSwap buffer width height) width height = buffer
  ∧ length (byteSwap buffer width height) = length buffer
  ∧ length (byteSwap (byteSwap buffer width height) width height)
    = length buffer.
Proof.
  intros Hlen. fold (geometry width height) in Hlen.
  split; [by apply byteSwap_twice | by rewrite !length_byteSwap].
Qed.

(** C10 (excess bytes are zeroed): when the inflated stream is longer than
    height * (1 + 4 * width), the buffer handed to deflate has the length of
    the stream, and every byte at an index from height * (1 + 4 * width) on
    is 0, whatever the stream held there. *)
Theorem byteSwap_trailing_zero (decompressed : list byte)
    (width height : nat) :
  height * (1 + 4 * width) < length decompressed →
  length (byteSwap decompressed width height) = length decompressed
  ∧ drop (height * (1 + 4 * width)) (byteSwap decompressed width height)
    = replicate (length decompressed - height * (1 + 4 * width)) x00
  ∧ ∀ i, height * (1 + 4 * width) ≤ i < length decompressed →
         byteSwap decompressed width height !! i = Some x00.
Proof.
  intros Hlen. fold (geometry width height) in *.
  assert (Hpre : length (swapRows height width
                           (take (geometry width height) decompressed))
                 = geometry width height).
  { rewrite swapRows_length; rewrite length_take; lia. }
  split; [apply length_byteSwap |].
  rewrite byteSwap_spec by lia. split.
  - by rewrite drop_app_length'.
  - intros i [Hlo Hhi].
    rewrite lookup_app_r by lia.
    apply lookup_replicate_2. lia.
Qed.

(** ** Properties of the converter *)

Lemma fromCharCode_inj (a b : list byte) :
  fromCharCode a = fromCharCode b → a = b.
Proof.
  unfold fromCharCode. intros H.
  by rewrite <- (list_byte_of_string_of_list_byte a),
               <- (list_byte_of_string_of_list_byte b), H.
Qed.

Lemma hasType_true (tag : list byte) (c : Chunk) :
  hasType (fromCharCode tag) c = true ↔ typeTag c = tag.
Proof.
  unfold hasType. rewrite String.eqb_eq.
  split; [apply fromCharCode_inj | by intros ->].
Qed.

Lemma hasType_false (tag : list byte) (c : Chunk) :
  hasType (fromCharCode tag) c = false ↔ typeTag c ≠ tag.
Proof.
  rewrite <- hasType_true. destruct (hasType _ c); split; congruence.
Qed.

Lemma headerChunk_eq (data : list byte) :
  let hs := headerStart data in
  let len := subarray data hs (hs + 4) in
  headerChunk data
  = mkChunk len
      (subarray data (hs + 4) (hs + 4 + 4))
      (subarray data (hs + 4 + 4) (hs + 4 + 4 + toNumber len))
      (subarray data (hs + 4 + 4 + toNumber len)
         (hs + 4 + 4 + toNumber len + 4)).
Proof. unfold headerChunk. by rewrite decodeChunk_eq. Qed.

Lemma headerChunk_bytes (data : list byte) :
  chunkBytes (headerChunk data)
  = subarray data (headerStart data) (scanStart data).
Proof.
  unfold scanStart. rewrite headerChunk_eq. cbv zeta.
  unfold chunkBytes. cbn [lengthField typeTag payload crc].
  rewrite !subarray_app by lia. done.
Qed.

Lemma hexOfByte_parse (b : byte) : parseHex2 (hexOfByte b) = Some (Byte.to_nat b).
Proof. destruct b; reflexivity. Qed.

(** C4 (codec selection): with [isCgbi] true the stream goes through raw
    inflate and is recompressed with zlib-wrapped deflate; with [isCgbi]
    false it goes through zlib-wrapped inflate and is recompressed with raw
    deflate; the byte-swap walk runs in between.  In a conversion [isCgbi]
    is the outcome of the marker check, so a successful conversion of an
    input that carries the marker used raw inflate and zlib deflate, and a
    successful conversion of any other input used zlib inflate and raw
    deflate. *)
Theorem codec_selection :
  (∀ idat width height,
     byteSwapIdat idat width height true
     = (decompressed ← await (Zlib.inflateRaw zlib idat);
        await (Zlib.deflate zlib (byteSwap decompressed width height)))
     ∧ byteSwapIdat idat width height false
       = (decompressed ← await (Zlib.inflate zlib idat);
          await (Zlib.deflateRaw zlib (byteSwap decompressed width height))))
  ∧ ∀ data out,
      convert data = Ok out →
      ∃ decompressed newIdat,
        out = assemble data newIdat (calculateCRC "IDAT" newIdat)
        ∧ if hasCgbiChunk data 8 then
            Zlib.inflateRaw zlib (rawIdat data) = Some decompressed
            ∧ Zlib.deflate zlib
                (byteSwap decompressed (headerWidth data) (headerHeight data))
              = Some newIdat
          else
            Zlib.inflate zlib (rawIdat data) = Some decompressed
            ∧ Zlib.deflateRaw zlib
                (byteSwap decompressed (headerWidth data) (headerHeight data))
              = Some newIdat.
Proof.
  split; [done |].
  intros data out Hok.
  apply convert_Ok_inv in Hok as (_ & _ & newIdat & Hswap & ->).
  unfold byteSwapIdat, byteSwapFunctionMap in Hswap.
  destruct (hasCgbiChunk data 8);
    cbn [lookup list_lookup inflate deflate] in Hswap.
  - destruct (Zlib.inflateRaw zlib (rawIdat data)) as [d |];
      cbn [await mbind Result_bind] in Hswap; [| done].
    destruct (Zlib.deflate zlib _) as [z |] eqn:Hz;
      cbn [await] in Hswap; [| done].
    injection Hswap as <-. by exists d, z.
  - destruct (Zlib.inflate zlib (rawIdat data)) as [d |];
      cbn [await mbind Result_bind] in Hswap; [| done].
    destruct (Zlib.deflateRaw zlib _) as [z |] eqn:Hz;
      cbn [await] in Hswap; [| done].
    injection Hswap as <-. by exists d, z.
Qed.

(** C6 (missing magic header): when the first 8 bytes of the input are not
    the magic header, which includes every input shorter than 8 bytes,
    [convert] throws the error "Data is not a PNG file." and so returns no
    output at all. *)
Theorem convert_rejects_non_png (data : list byte) :
  (take 8 data ≠ PNG_HEADER ∨ length data < 8) →
  convert data = Throw (JsError "Data is not a PNG file.")
  ∧ ∀ out, convert data ≠ Ok out.
Proof.
  intros H.
  assert (Hhdr : hasPngHeader data = false).
  { apply not_true_is_false. rewrite hasPngHeader_true.
    destruct H as [H | H]; [done |].
    intros Heq. apply (f_equal length) in Heq.
    rewrite length_take in Heq. change (length PNG_HEADER) with 8 in Heq.
    lia. }
  rewrite convert_eq, Hhdr. done.
Qed.

(** C7 (first chunk is not IHDR): with the magic header in place, when the
    tag read after the CgBI-marker check is not "IHDR", [convert] throws an
    error whose message is "Invalid PNG header: " followed by the tag bytes
    rendered as two hexadecimal digits each, separated by blanks.  The tag
    has 4 bytes whenever the input reaches that far; the tag "IDAT" gives
    the message "Invalid PNG header: 49 44 41 54". *)
Theorem convert_rejects_missing_IHDR (data : list byte) :
  let tag := subarray data (headerStart data + 4) (headerStart data + 8) in
  take 8 data = PNG_HEADER →
  tag ≠ IHDR_TAG →
  convert data
  = Throw (JsError (String.append "Invalid PNG header: "
                      (join " " (hexOfByte <$> tag))))
  ∧ (∀ b, parseHex2 (hexOfByte b) = Some (Byte.to_nat b))
  ∧ (headerStart data + 8 ≤ length data → length tag = 4)
  ∧ (tag = IDAT_TAG →
     convert data = Throw (JsError "Invalid PNG header: 49 44 41 54")).
Proof.
  intros tag Hmagic Htag.
  assert (Hconv : convert data = Throw (JsError (invalidHeaderMessage tag))).
  { rewrite convert_eq.
    apply hasPngHeader_true in Hmagic as ->. cbn [negb].
    assert (Htype : typeTag (headerChunk data) = tag).
    { rewrite headerChunk_eq. cbn [typeTag]. unfold tag. f_equal. lia. }
    change "IHDR"%string with (fromCharCode IHDR_TAG).
    rewrite (proj2 (hasType_false IHDR_TAG (headerChunk data)))
      by (by rewrite Htype).
    cbn [negb]. by rewrite Htype. }
  split; [exact Hconv |].
  split; [exact hexOfByte_parse |].
  split.
  - intros Hlen. unfold tag. rewrite length_subarray. lia.
  - intros Heq. rewrite Hconv, Heq. reflexivity.
Qed.

(** C1 (layout of the output): when [convert] succeeds, the output is the
    magic header, then the 16-byte CgBI marker exactly when the input did not
    carry it, then the bytes of the input's IHDR chunk as they stand in the
    input, then the raw bytes of the pass-through chunks in scan order, then
    one new IDAT frame (length, tag, rebuilt data, checksum), then the
    12-byte IEND chunk 00 00 00 00 "IEND" AE 42 60 82.  The length field of
    the new frame is 4 bytes that spell the length of the rebuilt data
    modulo 2^32, most significant byte first, and its checksum field 4 bytes
    that spell the checksum of tag and data modulo 2^32 in the same way;
    [toNumber] reads both values back. *)
Theorem convert_layout (data out : list byte) :
  convert data = Ok out →
  ∃ newIdat,
    byteSwapIdat (rawIdat data) (headerWidth data) (headerHeight data)
      (hasCgbiChunk data 8) = Ok newIdat
    ∧ out
      = [x89; x50; x4e; x47; x0d; x0a; x1a; x0a]
        ++ (if hasCgbiChunk data 8 then []
            else [x00; x00; x00; x04; x43; x67; x42; x49;
                  x50; x00; x20; x06; x2c; xb8; x77; x66])
        ++ subarray data (headerStart data) (scanStart data)
        ++ concat (chunkBytes <$> List.filter isPassThrough (restChunks data))
        ++ (toUint8Array (Z.of_nat (length newIdat))
            ++ [x49; x44; x41; x54]
            ++ newIdat
            ++ toUint8Array (calculateCRC "IDAT" newIdat))
        ++ [x00; x00; x00; x00; x49; x45; x4e; x44; xae; x42; x60; x82]
    ∧ subarray data (headerStart data) (scanStart data)
      = chunkBytes (headerChunk data)
    ∧ typeTag (headerChunk data) = IHDR_TAG
    ∧ (∃ l0 l1 l2 l3,
         toUint8Array (Z.of_nat (length newIdat)) = [l0; l1; l2; l3]
         ∧ (Z.of_nat (Byte.to_nat l0) * 2 ^ 24
            + Z.of_nat (Byte.to_nat l1) * 2 ^ 16
            + Z.of_nat (Byte.to_nat l2) * 2 ^ 8
            + Z.of_nat (Byte.to_nat l3)
            = Z.of_nat (length newIdat) mod 2 ^ 32)%Z
         ∧ Z.of_nat (toNumber [l0; l1; l2; l3])
           = (Z.of_nat (length newIdat) mod 2 ^ 32)%Z)
    ∧ (∃ c0 c1 c2 c3,
         toUint8Array (calculateCRC "IDAT" newIdat) = [c0; c1; c2; c3]
         ∧ (Z.of_nat (Byte.to_nat c0) * 2 ^ 24
            + Z.of_nat (Byte.to_nat c1) * 2 ^ 16
            + Z.of_nat (Byte.to_nat c2) * 2 ^ 8
            + Z.of_nat (Byte.to_nat c3)
            = calculateCRC "IDAT" newIdat mod 2 ^ 32)%Z
         ∧ Z.of_nat (toNumber [c0; c1; c2; c3])
           = (calculateCRC "IDAT" newIdat mod 2 ^ 32)%Z).
Proof.
  intros Hok.
  apply convert_Ok_inv in Hok as (_ & Htype & newIdat & Hswap & ->).
  assert (Hfield : ∀ v : Z, ∃ b0 b1 b2 b3,
            toUint8Array v = [b0; b1; b2; b3]
            ∧ (Z.of_nat (Byte.to_nat b0) * 2 ^ 24
               + Z.of_nat (Byte.to_nat b1) * 2 ^ 16
               + Z.of_nat (Byte.to_nat b2) * 2 ^ 8
               + Z.of_nat (Byte.to_nat b3) = v mod 2 ^ 32)%Z
            ∧ Z.of_nat (toNumber [b0; b1; b2; b3]) = (v mod 2 ^ 32)%Z).
  { intros v.
    destruct (toUint8Array_field v) as (b0 & b1 & b2 & b3 & Hb & Hv & Hn).
    exists b0, b1, b2, b3. by rewrite <- Hb. }
  exists newIdat.
  split; [done |]. split; [| split; [| split; [| split]]].
  - unfold assemble. rewrite headerChunk_bytes. done.
  - by rewrite headerChunk_bytes.
  - by apply (hasType_true IHDR_TAG).
  - apply Hfield.
  - apply Hfield.
Qed.

Lemma embedded_prefix (cs : list Chunk) (before out : list byte) :
  embedded cs out → embedded cs (before ++ out).
Proof.
  intros H. destruct H as [out | c cs before' rest H].
  - constructor.
  - rewrite app_assoc. by constructor.
Qed.

Lemma embedded_concat (cs : list Chunk) (rest : list byte) :
  embedded cs (concat (chunkBytes <$> cs) ++ rest).
Proof.
  induction cs as [| c cs IH]; [constructor |].
  rewrite fmap_cons. cbn [concat]. rewrite <- app_assoc.
  by apply (embedded_cons c cs []).
Qed.

Lemma embedded_filter (keep : Chunk → bool) (cs : list Chunk)
    (out : list byte) :
  embedded cs out → embedded (List.filter keep cs) out.
Proof.
  induction 1 as [out | c cs before rest H IH]; cbn [List.filter].
  - constructor.
  - destruct (keep c); [by constructor |].
    rewrite app_assoc. by apply embedded_prefix.
Qed.

Lemma filter_isAncillary_isPassThrough (cs : list Chunk) :
  List.filter isAncillary (List.filter isPassThrough cs)
  = List.filter isAncillary cs.
Proof.
  induction cs as [| c cs IH]; [done |]. cbn [List.filter].
  destruct (isPassThrough c) eqn:Hp; cbn [List.filter]; [by rewrite IH |].
  rewrite IH.
  assert (isAncillary c = false) as ->; [| done].
  unfold isAncillary, isPassThrough in *.
  destruct (hasType "IHDR" c), (hasType "IDAT" c), (hasType "iDOT" c);
    done.
Qed.

(** C8 (pass-through fidelity): when [convert] succeeds, the chunks of the
    scan whose type is none of IHDR, IDAT, iDOT and IEND occur in the output
    with all their bytes (length, tag, payload and CRC as read from the
    input), as disjoint byte ranges in the order in which the scan met
    them. *)
Theorem pass_through_fidelity (data out : list byte) :
  convert data = Ok out →
  embedded (List.filter isAncillary (restChunks data)) out
  ∧ ∃ before after,
      out = before
            ++ concat (chunkBytes <$>
                         List.filter isPassThrough (restChunks data))
            ++ after
      ∧ List.filter isAncillary (List.filter isPassThrough (restChunks data))
        = List.filter isAncillary (restChunks data).
Proof.
  intros Hok.
  apply convert_Ok_inv in Hok as (_ & _ & newIdat & _ & ->).
  unfold assemble. split.
  - rewrite <- filter_isAncillary_isPassThrough.
    apply embedded_filter.
    do 3 apply embedded_prefix. apply embedded_concat.
  - eexists (PNG_HEADER ++ insertedMarker data ++ chunkBytes (headerChunk data)),
      _.
    split; [| apply filter_isAncillary_isPassThrough].
    by rewrite <- !app_assoc.
Qed.

Lemma emittedChunks_bytes (data newIdat : list byte) (checksum : Z) :
  PNG_HEADER ++ concat (chunkBytes <$> emittedChunks data newIdat checksum)
  = assemble data newIdat checksum.
Proof.
  unfold assemble, emittedChunks, insertedMarker.
  rewrite fmap_app, concat_app, fmap_cons. cbn [concat].
  rewrite fmap_app, concat_app.
  destruct (hasCgbiChunk data 8); cbn; by rewrite ?app_nil_r, <- ?app_assoc.
Qed.

Lemma isPassThrough_not_iDOT (c : Chunk) :
  isPassThrough c = true → hasType "iDOT" c = false.
Proof.
  unfold isPassThrough.
  by destruct (hasType "IDAT" c), (hasType "iDOT" c).
Qed.


(** ** Streams made of well framed chunks *)

Lemma Forall_filter_keep (P : Chunk → Prop) (keep : Chunk → bool)
    (cs : list Chunk) :
  Forall P cs → Forall P (List.filter keep cs).
Proof.
  intros H. apply Forall_forall. intros c Hc.
  apply list_elem_of_In, filter_In in Hc as [Hc _].
  rewrite Forall_forall in H. by apply H, list_elem_of_In.
Qed.

Lemma subarray_at (data before x after : list byte) (b e : nat) :
  data = before ++ x ++ after → b = length before → e = b + length x →
  subarray data b e = x.
Proof. intros -> Hb He. by apply subarray_middle. Qed.

Lemma length_chunkBytes (c : Chunk) :
  wellFramed c → length (chunkBytes c) = 4 + 4 + toNumber (lengthField c) + 4.
Proof.
  intros (Hlen & Htag & Hbody & Hsum). unfold chunkBytes.
  rewrite !length_app. lia.
Qed.

Lemma decodeChunk_wellFramed (c : Chunk) (before after : list byte) :
  wellFramed c →
  decodeChunk (mkReader (before ++ chunkBytes c ++ after) (length before))
  = (c, mkReader (before ++ chunkBytes c ++ after)
          (length before + length (chunkBytes c))).
Proof.
  intros Hc. pose proof (length_chunkBytes c Hc) as Hbytes.
  destruct Hc as (Hlen & Htag & Hbody & Hsum).
  destruct c as [len tag body sum]. unfold chunkBytes in *.
  cbn [lengthField typeTag payload crc] in *.
  rewrite decodeChunk_eq. cbv zeta.
  set (data := before ++ (len ++ tag ++ body ++ sum) ++ after).
  assert (Hl : subarray data (length before) (length before + 4) = len).
  { apply (subarray_at _ before len (tag ++ body ++ sum ++ after));
      [| done | lia].
    unfold data. by rewrite <- !app_assoc. }
  rewrite Hl.
  assert (Ht : subarray data (length before + 4) (length before + 4 + 4) = tag).
  { apply (subarray_at _ (before ++ len) tag (body ++ sum ++ after));
      [| rewrite length_app; lia | lia].
    unfold data. by rewrite <- !app_assoc. }
  assert (Hb : subarray data (length before + 4 + 4)
                 (length before + 4 + 4 + toNumber len) = body).
  { apply (subarray_at _ (before ++ len ++ tag) body (sum ++ after));
      [| rewrite !length_app; lia | lia].
    unfold data. by rewrite <- !app_assoc. }
  assert (Hs : subarray data (length before + 4 + 4 + toNumber len)
                 (length before + 4 + 4 + toNumber len + 4) = sum).
  { apply (subarray_at _ (before ++ len ++ tag ++ body) sum after);
      [| rewrite !length_app; lia | lia].
    unfold data. by rewrite <- !app_assoc. }
  rewrite Ht, Hb, Hs. do 2 f_equal. lia.
Qed.

Lemma chunksFrom_wellFramed (chunks : list Chunk) :
  ∀ (fuel : nat) (before tail : list byte),
    Forall wellFramed chunks →
    Forall (fun c => hasType "IEND" c = false) chunks →
    tailStops tail →
    length (concat (chunkBytes <$> chunks) ++ tail) < fuel →
    chunksFrom fuel
      (mkReader (before ++ concat (chunkBytes <$> chunks) ++ tail)
         (length before))
    = chunks.
Proof.
  induction chunks as [| c chunks IH];
    intros fuel before tail Hframed Hiend Htail Hfuel.
  - destruct fuel as [| fuel]; [lia |].
    cbn [chunksFrom buffer offset fmap list_fmap concat app].
    destruct Htail as [-> | (len & rest & Hlen & ->)].
    + rewrite app_nil_r, Nat.ltb_irrefl. done.
    + destruct (length before <? _); [| done].
      rewrite decodeChunk_eq. cbv beta iota zeta. rewrite hasType_mk.
      rewrite (subarray_at _ (before ++ len) [x49; x45; x4e; x44] rest);
        [done | by rewrite <- !app_assoc | rewrite length_app; lia | simpl; lia].
  - destruct fuel as [| fuel]; [lia |].
    apply Forall_cons in Hframed as [Hc Hframed].
    apply Forall_cons in Hiend as [Hci Hiend].
    pose proof (length_chunkBytes c Hc) as Hbytes.
    rewrite fmap_cons in *. cbn [concat] in *.
    rewrite <- (app_assoc (chunkBytes c)) in *.
    cbn [chunksFrom buffer offset].
    rewrite decodeChunk_wellFramed by done.
    assert (Hlt : (length before
                   <? length (before ++ chunkBytes c
                              ++ concat (chunkBytes <$> chunks) ++ tail))
                  = true).
    { apply Nat.ltb_lt. rewrite !length_app. lia. }
    rewrite Hlt, Hci. f_equal.
    replace (length before + length (chunkBytes c))
      with (length (before ++ chunkBytes c)) by (by rewrite length_app).
    rewrite (app_assoc before (chunkBytes c)).
    apply IH; try done.
    rewrite !length_app in *. lia.
Qed.

Lemma framed_facts (marker : list byte) (ihdr : Chunk) (chunks : list Chunk)
    (tail : list byte) :
  markerSlot marker → wellFramed ihdr → typeTag ihdr = IHDR_TAG →
  Forall wellFramed chunks →
  Forall (fun c => hasType "IEND" c = false) chunks →
  tailStops tail →
  let data := pngBytes marker ihdr chunks tail in
  hasPngHeader data = true
  ∧ hasCgbiChunk data 8 = (if marker is [] then false else true)
  ∧ headerChunk data = ihdr
  ∧ restChunks data = chunks.
Proof.
  intros Hmarker Hihdr Htag Hframed Hiend Htail data.
  pose proof (length_chunkBytes ihdr Hihdr) as Hbytes.
  assert (Hhdr : hasPngHeader data = true).
  { apply hasPngHeader_true. unfold data, pngBytes. by rewrite take_app_length'. }
  assert (Hcgbi : hasCgbiChunk data 8 = (if marker is [] then false else true)).
  { destruct Hmarker as [-> | [Hm Hlen]].
    - apply not_true_is_false. rewrite hasCgbiChunk_true.
      unfold data, pngBytes. rewrite drop_app_length' by done.
      cbn [app]. destruct Hihdr as (Hl & Ht & _).
      destruct ihdr as [len tag body sum]. unfold chunkBytes at 1.
      cbn [lengthField typeTag payload crc] in *. subst tag.
      rewrite <- !app_assoc, (app_assoc len).
      rewrite take_app_length' by (by rewrite length_app, Hl).
      intros Heq. apply (f_equal (drop 4)) in Heq.
      rewrite drop_app_length' in Heq by done. done.
    - destruct marker as [| m marker]; [done |].
      apply hasCgbiChunk_true. unfold data, pngBytes.
      rewrite drop_app_length' by done.
      rewrite take_app_le by lia. done. }
  assert (Hstart : headerStart data = length (PNG_HEADER ++ marker)).
  { unfold headerStart. rewrite Hcgbi, length_app.
    destruct Hmarker as [-> | [Hm Hlen]]; [done |].
    destruct marker; [done |]. rewrite Hlen. done. }
  assert (Hchunk : decodeChunk (mkReader data (headerStart data))
                   = (ihdr, mkReader data
                              (length (PNG_HEADER ++ marker)
                               + length (chunkBytes ihdr)))).
  { rewrite Hstart. unfold data, pngBytes.
    rewrite (app_assoc PNG_HEADER marker).
    by apply decodeChunk_wellFramed. }
  assert (Hhc : headerChunk data = ihdr).
  { unfold headerChunk. by rewrite Hchunk. }
  repeat split; try done.
  unfold restChunks, scanStart, scannedChunks. rewrite Hhc, Hstart.
  replace (length (PNG_HEADER ++ marker) + 4 + 4
           + toNumber (lengthField ihdr) + 4)
    with (length ((PNG_HEADER ++ marker) ++ chunkBytes ihdr))
    by (rewrite (length_app _ (chunkBytes ihdr)); lia).
  unfold data, pngBytes.
  rewrite (app_assoc PNG_HEADER marker), (app_assoc _ (chunkBytes ihdr)).
  apply chunksFrom_wellFramed; try done.
  rewrite !length_app. lia.
Qed.

Lemma convert_framed (marker : list byte) (ihdr : Chunk)
    (chunks : list Chunk) (tail : list byte) :
  markerSlot marker → wellFramed ihdr → typeTag ihdr = IHDR_TAG →
  Forall wellFramed chunks →
  Forall (fun c => hasType "IEND" c = false) chunks →
  tailStops tail →
  convert (pngBytes marker ihdr chunks tail)
  = (newIdat ←
       byteSwapIdat
         (concat (payload <$> List.filter (hasType "IDAT") chunks))
         (toNumber (subarray (payload ihdr) 0 4))
         (toNumber (subarray (payload ihdr) 4 8))
         (if marker is [] then false else true);
     Ok (pngBytes (if marker is [] then CGBI_CHUNK ++ CGBI_BGRA else [])
           ihdr
           (List.filter isPassThrough chunks
            ++ [idatChunk (calculateCRC "IDAT" newIdat) newIdat])
           IEND_CHUNK)).
Proof.
  intros Hmarker Hihdr Htag Hframed Hiend Htail.
  destruct (framed_facts marker ihdr chunks tail)
    as (Hhdr & Hcgbi & Hhc & Hrest); try done.
  rewrite convert_eq, Hhdr, Hhc. cbn [negb].
  change "IHDR"%string with (fromCharCode IHDR_TAG).
  rewrite (proj2 (hasType_true IHDR_TAG ihdr)) by done. cbn [negb].
  unfold rawIdat, headerWidth, headerHeight, assemble, insertedMarker.
  rewrite Hhc, Hrest, Hcgbi.
  destruct (byteSwapIdat _ _ _ _) as [newIdat | e]; [| done].
  cbn [mbind Result_bind]. f_equal. unfold pngBytes.
  rewrite fmap_app, concat_app. cbn [fmap list_fmap concat].
  rewrite app_nil_r.
  destruct marker; cbn [app]; by rewrite <- ?app_assoc.
Qed.

(** ** Big-endian length fields *)

Lemma toNumber_toUint8Array (n : nat) :
  (Z.of_nat n < 2 ^ 32)%Z → toNumber (toUint8Array (Z.of_nat n)) = n.
Proof.
  intros Hn. rewrite toUint8Array_eq. unfold toNumber. cbn [toNumber_loop].
  rewrite !to_nat_ofZ.
  assert (H0 : (0 ≤ Z.of_nat n)%Z) by lia.
  assert (H1 : (0 ≤ Z.of_nat n / 256)%Z) by (apply Z.div_pos; lia).
  assert (H2 : (0 ≤ Z.of_nat n / 256 / 256)%Z) by (apply Z.div_pos; lia).
  assert (H3 : (0 ≤ Z.of_nat n / 256 / 256 / 256)%Z)
    by (apply Z.div_pos; lia).
  rewrite !Z.rem_mod_nonneg by lia.
  rewrite !Z.mod_mod by lia.
  change (2 ^ 32)%Z with 4294967296%Z in Hn.
  Z.div_mod_to_equations. lia.
Qed.

Lemma wellFramed_idatChunk (checksum : Z) (newIdat : list byte) :
  (Z.of_nat (length newIdat) < 2 ^ 32)%Z →
  wellFramed (idatChunk checksum newIdat).
Proof.
  intros Hlen. unfold wellFramed, idatChunk.
  cbn [lengthField typeTag payload crc].
  by rewrite toNumber_toUint8Array, !length_toUint8Array.
Qed.
Lemma emitted_decoded (data newIdat : list byte) (checksum : Z) :
  framedInput data →
  (Z.of_nat (length newIdat) < 2 ^ 32)%Z →
  scannedChunks (assemble data newIdat checksum) 8 ++ [iendChunk]
  = emittedChunks data newIdat checksum.
Proof.
  intros (marker & ihdr & chunks & tail & -> & Hm & Hi & Ht & Hf & He & Htl)
    Hlen.
  destruct (framed_facts marker ihdr chunks tail Hm Hi Ht Hf He Htl)
    as (_ & Hc & Hhc & Hrest).
  rewrite <- emittedChunks_bytes. unfold emittedChunks.
  rewrite Hc, Hhc, Hrest.
  set (front := (if if marker is [] then false else true
                 then [] else [cgbiMarkerChunk])
                ++ ihdr :: List.filter isPassThrough chunks
                ++ [idatChunk checksum newIdat]).
  replace ((if if marker is [] then false else true
            then [] else [cgbiMarkerChunk])
           ++ ihdr :: List.filter isPassThrough chunks
           ++ [idatChunk checksum newIdat; iendChunk])
    with (front ++ [iendChunk])
    by (unfold front; rewrite <- app_assoc; cbn [app];
        by rewrite <- app_assoc).
  f_equal. rewrite fmap_app, concat_app.
  change (concat (chunkBytes <$> [iendChunk])) with IEND_CHUNK.
  unfold scannedChunks.
  apply (chunksFrom_wellFramed front _ PNG_HEADER IEND_CHUNK).
  - unfold front. apply Forall_app. split.
    { destruct marker; by repeat constructor. }
    apply Forall_cons. split; [done |].
    apply Forall_app. split.
    + by apply Forall_filter_keep.
    + repeat constructor; by apply wellFramed_idatChunk.
  - unfold front. apply Forall_app. split.
    { destruct marker; by repeat constructor. }
    apply Forall_cons. split.
    { apply (hasType_false [x49; x45; x4e; x44]). by rewrite Ht. }
    apply Forall_app. split; [| by repeat constructor].
    by apply Forall_filter_keep.
  - right. exists [x00; x00; x00; x00], [xae; x42; x60; x82]. done.
  - rewrite !length_app. lia.
Qed.

(** C9 (iDOT dropping): when [convert] succeeds, the output is the magic
    header followed by the bytes of the chunks [convert] writes (the CgBI
    marker when inserted, the IHDR chunk, the pass-through chunks, the new
    IDAT chunk, the IEND chunk), and none of these chunks has the type tag
    "iDOT", whatever the number of iDOT chunks in the input.  When the input
    is a stream of complete chunks, decoding the output chunk by chunk gives
    back exactly these chunks. *)
Theorem iDOT_dropped (data out : list byte) :
  convert data = Ok out →
  ∃ newIdat,
    let emitted :=
      emittedChunks data newIdat (calculateCRC "IDAT" newIdat) in
    out = PNG_HEADER ++ concat (chunkBytes <$> emitted)
    ∧ Forall (fun c => hasType "iDOT" c = false) emitted
    ∧ Forall (fun c => typeTag c ≠ [x69; x44; x4f; x54]) emitted
    ∧ (framedInput data →
       (Z.of_nat (length newIdat) < 2 ^ 32)%Z →
       scannedChunks out 8 ++ [iendChunk] = emitted
       ∧ Forall (fun c => hasType "iDOT" c = false) (scannedChunks out 8)).
Proof.
  intros Hok.
  apply convert_Ok_inv in Hok as (_ & Htype & newIdat & _ & ->).
  exists newIdat. cbv zeta.
  split; [by rewrite emittedChunks_bytes |].
  assert (Hall : Forall (fun c => hasType "iDOT" c = false)
                   (emittedChunks data newIdat
                      (calculateCRC "IDAT" newIdat))).
  { unfold emittedChunks.
    apply Forall_app. split.
    { destruct (hasCgbiChunk data 8); by repeat constructor. }
    apply Forall_cons. split.
    { apply (hasType_true IHDR_TAG) in Htype.
      apply (hasType_false [x69; x44; x4f; x54]). by rewrite Htype. }
    apply Forall_app. split; [| by repeat constructor].
    apply Forall_forall. intros c Hc.
    apply list_elem_of_In, filter_In in Hc as [_ Hc].
    by apply isPassThrough_not_iDOT. }
  split; [exact Hall |].
  split.
  { eapply Forall_impl; [exact Hall |].
    intros c Hc. by apply (hasType_false [x69; x44; x4f; x54]). }
  intros Hframed Hlen.
  pose proof (emitted_decoded data newIdat (calculateCRC "IDAT" newIdat)
                Hframed Hlen) as Hdec.
  split; [exact Hdec |].
  rewrite <- Hdec in Hall. by apply Forall_app in Hall as [Hall _].
Qed.

(** ** Round trip *)

Lemma filter_IDAT_isPassThrough (cs : list Chunk) :
  List.filter (hasType "IDAT") (List.filter isPassThrough cs) = [].
Proof.
  induction cs as [| c cs IH]; [done |]. cbn [List.filter].
  destruct (isPassThrough c) eqn:Hp; [| done]. cbn [List.filter].
  unfold isPassThrough in Hp.
  destruct (hasType "IDAT" c); [done | exact IH].
Qed.

Lemma filter_isPassThrough_idem (cs : list Chunk) :
  List.filter isPassThrough (List.filter isPassThrough cs)
  = List.filter isPassThrough cs.
Proof.
  induction cs as [| c cs IH]; [done |]. cbn [List.filter].
  destruct (isPassThrough c) eqn:Hp; [| done]. cbn [List.filter].
  by rewrite Hp, IH.
Qed.

Lemma filter_notIDAT_isPassThrough (cs : list Chunk) :
  List.filter (fun c => negb (hasType "IDAT" c)) (List.filter isPassThrough cs)
  = List.filter isPassThrough cs.
Proof.
  induction cs as [| c cs IH]; [done |]. cbn [List.filter].
  destruct (isPassThrough c) eqn:Hp; [| done]. cbn [List.filter].
  unfold isPassThrough in Hp.
  destruct (hasType "IDAT" c); [done |]. cbn [negb]. by rewrite IH.
Qed.

Lemma filter_notIDAT_no_iDOT (cs : list Chunk) :
  Forall (fun c => hasType "iDOT" c = false) cs →
  List.filter (fun c => negb (hasType "IDAT" c)) cs
  = List.filter isPassThrough cs.
Proof.
  induction 1 as [| c cs Hc _ IH]; [done |]. cbn [List.filter].
  unfold isPassThrough at 1. rewrite Hc, andb_true_r. by rewrite IH.
Qed.

Lemma tailStops_IEND : tailStops IEND_CHUNK.
Proof.
  right. exists [x00; x00; x00; x00], [xae; x42; x60; x82]. done.
Qed.

(** C2 (round trip): let [P] be a valid standard PNG of one 32-bit colour
    type without interlacing, whose image data inflates to [pixels], and let
    the codec give back what it compressed on the two streams involved.
    Then [convert P] is a CgBI stream, and [convert (convert P)] is again a
    valid standard PNG with the same IHDR chunk, the same pass-through chunks
    in the same order and, behind them, one IDAT chunk whose data inflates
    to [pixels] byte for byte.  What differs from [P] is the marker, the
    compressed encoding, the IDAT chunks that were merged and moved behind
    the other chunks, and the iDOT chunks that were dropped: the chunk
    content outside IDAT is that of [P] without its iDOT chunks, and it is
    that of [P] when [P] holds no iDOT chunk. *)
Theorem convert_round_trip (P : list byte) (ihdr : Chunk)
    (chunks : list Chunk) (pixels cgbiData stdData : list byte) :
  let width := toNumber (subarray (payload ihdr) 0 4) in
  let height := toNumber (subarray (payload ihdr) 4 8) in
  StandardPng32 P ihdr chunks pixels →
  Zlib.deflateRaw zlib (byteSwap pixels width height) = Some cgbiData →
  Zlib.inflateRaw zlib cgbiData = Some (byteSwap pixels width height) →
  Zlib.deflate zlib pixels = Some stdData →
  Zlib.inflate zlib stdData = Some pixels →
  (Z.of_nat (length cgbiData) < 2 ^ 32)%Z →
  (Z.of_nat (length stdData) < 2 ^ 32)%Z →
  ∃ mid Q,
    convert P = Ok mid
    ∧ isCgbiPng mid = true
    ∧ convert mid = Ok Q
    ∧ isStandardPng Q = true
    ∧ Q = pngBytes [] ihdr
            (List.filter isPassThrough chunks
             ++ [idatChunk (calculateCRC "IDAT" stdData) stdData])
            IEND_CHUNK
    ∧ StandardPng32 Q ihdr
        (List.filter isPassThrough chunks
         ++ [idatChunk (calculateCRC "IDAT" stdData) stdData])
        pixels
    ∧ headerChunk P = ihdr ∧ restChunks P = chunks
    ∧ headerChunk Q = ihdr
    ∧ restChunks Q
      = List.filter isPassThrough chunks
        ++ [idatChunk (calculateCRC "IDAT" stdData) stdData]
    ∧ chunkContent Q = ihdr :: List.filter isPassThrough chunks
    ∧ (Forall (fun c => hasType "iDOT" c = false) chunks →
       sameChunkContent P Q).
Proof.
  intros width height HP Hdeflate1 Hinflate1 Hdeflate2 Hinflate2 Hlen1 Hlen2.
  destruct HP as [-> Hihdr Htag Hlen Hdepth Hcolor Hinter Hframed Hiend
                     Hpixels Hgeo].
  fold width height in Hgeo.
  set (chunks1 := List.filter isPassThrough chunks
                  ++ [idatChunk (calculateCRC "IDAT" cgbiData) cgbiData]).
  set (chunks2 := List.filter isPassThrough chunks
                  ++ [idatChunk (calculateCRC "IDAT" stdData) stdData]).
  assert (Hframed' : ∀ sum data, (Z.of_nat (length data) < 2 ^ 32)%Z →
            Forall wellFramed
              (List.filter isPassThrough chunks ++ [idatChunk sum data])).
  { intros sum data Hdata. apply Forall_app. split.
    - by apply Forall_filter_keep.
    - repeat constructor; by apply wellFramed_idatChunk. }
  assert (Hiend' : ∀ sum data,
            Forall (fun c => hasType "IEND" c = false)
              (List.filter isPassThrough chunks ++ [idatChunk sum data])).
  { intros sum data. apply Forall_app. split.
    - by apply Forall_filter_keep.
    - by repeat constructor. }
  assert (Hidat' : ∀ sum data,
            concat (payload <$> List.filter (hasType "IDAT")
                      (List.filter isPassThrough chunks
                       ++ [idatChunk sum data])) = data).
  { intros sum data. rewrite List.filter_app, filter_IDAT_isPassThrough.
    cbn. by rewrite app_nil_r. }
  assert (Hpass' : ∀ sum data,
            List.filter isPassThrough
              (List.filter isPassThrough chunks ++ [idatChunk sum data])
            = List.filter isPassThrough chunks).
  { intros sum data. rewrite List.filter_app, filter_isPassThrough_idem.
    cbn. by rewrite app_nil_r. }
  assert (Hmarker : markerSlot (CGBI_CHUNK ++ CGBI_BGRA)) by (by right).
  assert (Hmid : convert (pngBytes [] ihdr chunks IEND_CHUNK)
                 = Ok (pngBytes (CGBI_CHUNK ++ CGBI_BGRA) ihdr chunks1
                         IEND_CHUNK)).
  { rewrite (convert_framed [] ihdr chunks IEND_CHUNK (or_introl eq_refl)
               Hihdr Htag Hframed Hiend tailStops_IEND).
    fold width height.
    unfold byteSwapIdat. cbn [byteSwapFunctionMap lookup list_lookup inflate deflate].
    rewrite Hpixels. cbn [await mbind Result_bind].
    by rewrite Hdeflate1. }
  assert (HQ : convert (pngBytes (CGBI_CHUNK ++ CGBI_BGRA) ihdr chunks1
                          IEND_CHUNK)
               = Ok (pngBytes [] ihdr chunks2 IEND_CHUNK)).
  { rewrite (convert_framed (CGBI_CHUNK ++ CGBI_BGRA) ihdr chunks1
               IEND_CHUNK Hmarker Hihdr Htag (Hframed' _ _ Hlen1)
               (Hiend' _ _) tailStops_IEND).
    fold width height. unfold chunks1. rewrite Hidat', Hpass'.
    unfold byteSwapIdat.
    cbn [byteSwapFunctionMap lookup list_lookup inflate deflate app
         CGBI_CHUNK].
    rewrite Hinflate1. cbn [await mbind Result_bind].
    rewrite byteSwap_twice by done.
    by rewrite Hdeflate2. }
  exists (pngBytes (CGBI_CHUNK ++ CGBI_BGRA) ihdr chunks1 IEND_CHUNK),
    (pngBytes [] ihdr chunks2 IEND_CHUNK).
  split; [exact Hmid |]. split.
  { destruct (framed_facts (CGBI_CHUNK ++ CGBI_BGRA) ihdr chunks1
                IEND_CHUNK Hmarker Hihdr Htag (Hframed' _ _ Hlen1)
                (Hiend' _ _) tailStops_IEND) as (Hh & Hc & _).
    unfold isCgbiPng, defaultOffset. by rewrite Hh, Hc. }
  split; [exact HQ |]. split.
  { destruct (framed_facts [] ihdr chunks2 IEND_CHUNK (or_introl eq_refl)
                Hihdr Htag (Hframed' _ _ Hlen2) (Hiend' _ _) tailStops_IEND)
      as (Hh & Hc & _).
    unfold isStandardPng, defaultOffset. by rewrite Hh, Hc. }
  split; [done |].
  destruct (framed_facts [] ihdr chunks IEND_CHUNK (or_introl eq_refl)
              Hihdr Htag Hframed Hiend tailStops_IEND)
    as (_ & _ & HhP & HrP).
  destruct (framed_facts [] ihdr chunks2 IEND_CHUNK (or_introl eq_refl)
              Hihdr Htag (Hframed' _ _ Hlen2) (Hiend' _ _) tailStops_IEND)
    as (_ & _ & HhQ & HrQ).
  assert (Hcontent : chunkContent (pngBytes [] ihdr chunks2 IEND_CHUNK)
                     = ihdr :: List.filter isPassThrough chunks).
  { unfold chunkContent. rewrite HhQ, HrQ. unfold chunks2.
    rewrite List.filter_app, filter_notIDAT_isPassThrough.
    cbn. by rewrite app_nil_r. }
  split.
  { constructor; try done.
    - by apply Hframed'.
    - by apply Hiend'.
    - unfold chunks2. by rewrite Hidat'. }
  split; [exact HhP |]. split; [exact HrP |]. split; [exact HhQ |].
  split; [exact HrQ |]. split; [exact Hcontent |].
  intros HiDOT. unfold sameChunkContent. rewrite Hcontent.
  unfold chunkContent. rewrite HhP, HrP.
  by rewrite filter_notIDAT_no_iDOT.
Qed.

(** ** Further properties of the helpers *)

(** X1 ([isEquals]): the comparison returns [true] exactly on equal arrays;
    arrays of different lengths compare [false] without a look at their
    elements, also when one is a prefix of the other. *)
Theorem isEquals_decides (a b : list byte) :
  (isEquals a b = true ↔ a = b)
  ∧ (isEquals a b = false ↔ a ≠ b)
  ∧ (length a ≠ length b → isEquals a b = false)
  ∧ (∀ extra, extra ≠ [] → isEquals a (a ++ extra) = false).
Proof.
  split; [apply isEquals_true |]. split; [apply isEquals_false |]. split.
  - intros Hlen. apply isEquals_false. by intros ->.
  - intros extra Hextra. apply isEquals_false. intros Heq.
    apply (f_equal length) in Heq. rewrite length_app in Heq.
    destruct extra; [done | simpl in Heq; lia].
Qed.

Lemma toNumber_loop_acc (data : list byte) (acc : nat) :
  toNumber_loop data acc = acc * 256 ^ length data + toNumber data.
Proof.
  unfold toNumber. revert acc.
  induction data as [| d data IH]; intros acc.
  - simpl. lia.
  - cbn [toNumber_loop length].
    rewrite (IH (acc * 256 + Byte.to_nat d)), (IH (0 * 256 + Byte.to_nat d)).
    rewrite Nat.pow_succ_r'. nia.
Qed.

Lemma toNumber_lt (data : list byte) : toNumber data < 256 ^ length data.
Proof.
  induction data as [| d data IH]; [by apply Nat.lt_0_1 |].
  unfold toNumber. cbn [toNumber_loop length].
  rewrite toNumber_loop_acc, Nat.pow_succ_r'.
  pose proof (Byte.to_nat_bounded d). nia.
Qed.

Lemma toNumber_loop_app (front back : list byte) (acc : nat) :
  toNumber_loop (front ++ back) acc
  = toNumber_loop back (toNumber_loop front acc).
Proof.
  revert acc. induction front as [| d front IH]; intros acc; [done |].
  cbn [app toNumber_loop]. apply IH.
Qed.

(** X2 ([toNumber]): on an array of at most 6 bytes, where every value the
    loop holds is below 2^48 and the arithmetic of the source is exact, the
    loop computes the big-endian value: the value of a concatenation is the
    value of the front shifted by the length of the back plus the value of
    the back, a leading zero byte does not count, and the value of [n] bytes
    is below 256^n (below 2^32 for the 4-byte fields [convert] decodes). *)
Theorem toNumber_big_endian (front back : list byte) :
  length (front ++ back) ≤ 6 →
  toNumber (front ++ back)
  = toNumber front * 256 ^ length back + toNumber back
  ∧ toNumber back < 256 ^ length back
  ∧ (Z.of_nat (toNumber (front ++ back)) < 2 ^ 48)%Z
  ∧ (front = [x00] → toNumber (front ++ back) = toNumber back)
  ∧ (length back ≤ 4 → (Z.of_nat (toNumber back) < 2 ^ 32)%Z).
Proof.
  clear zlib calculateCRC.
  intros Hsix.
  assert (Hbound : ∀ (data : list byte) (n : nat), length data ≤ n →
            (Z.of_nat (toNumber data) < Z.of_nat 256 ^ Z.of_nat n)%Z).
  { intros data n Hlen. pose proof (toNumber_lt data) as Hlt.
    assert (Hpow : 256 ^ length data ≤ 256 ^ n)
      by (apply Nat.pow_le_mono_r; lia).
    apply Nat2Z.inj_lt in Hlt. apply Nat2Z.inj_le in Hpow.
    rewrite Nat2Z.inj_pow in Hlt.
    rewrite (Nat2Z.inj_pow 256 (length data)), (Nat2Z.inj_pow 256 n) in Hpow.
    lia. }
  assert (Happ : toNumber (front ++ back)
                 = toNumber front * 256 ^ length back + toNumber back).
  { unfold toNumber at 1 2. by rewrite toNumber_loop_app, toNumber_loop_acc. }
  split; [exact Happ |]. split; [apply toNumber_lt |]. split; [| split].
  - exact (Hbound (front ++ back) 6 Hsix).
  - intros ->. done.
  - intros Hlen. exact (Hbound back 4 Hlen).
Qed.

Lemma ofZ_byte (v : Z) (b : byte) :
  (v mod 256 = Z.of_nat (Byte.to_nat b))%Z → ofZ v = b.
Proof.
  intros Hv. unfold ofZ. rewrite Hv, Nat2Z.id, Byte.of_to_nat. done.
Qed.

(** X3 ([toUint8Array] then [toNumber]): encoding always gives 4 bytes, and
    decoding them gives the number reduced modulo 2^32: a length or checksum
    in the range 0 .. 2^32 - 1 is read back unchanged, a larger one loses
    its high part, and a negative one comes back as its two's complement. *)
Theorem toNumber_toUint8Array_mod (data : Z) :
  length (toUint8Array data) = 4
  ∧ Z.of_nat (toNumber (toUint8Array data)) = (data mod 2 ^ 32)%Z
  ∧ ((0 ≤ data < 2 ^ 32)%Z →
     Z.of_nat (toNumber (toUint8Array data)) = data).
Proof.
  assert (H : Z.of_nat (toNumber (toUint8Array data)) = (data mod 2 ^ 32)%Z).
  { rewrite toUint8Array_eq. unfold toNumber. cbn [toNumber_loop].
    repeat first [rewrite Nat2Z.inj_add | rewrite Nat2Z.inj_mul].
    rewrite !to_nat_ofZ_rem.
    change (2 ^ 32)%Z with 4294967296%Z.
    change (Z.of_nat 256) with 256%Z. change (Z.of_nat 0) with 0%Z.
    Z.div_mod_to_equations. lia. }
  split; [apply length_toUint8Array |]. split; [exact H |].
  intros Hrange. rewrite H. by apply Z.mod_small.
Qed.

(** X4 ([toNumber] then [toUint8Array]): a 4-byte field that is decoded and
    encoded again is the same 4 bytes, so the decoding of 4-byte fields is
    injective. *)
Theorem toUint8Array_toNumber (field other : list byte) :
  length field = 4 →
  toUint8Array (Z.of_nat (toNumber field)) = field
  ∧ (length other = 4 → toNumber field = toNumber other → field = other).
Proof.
  clear zlib calculateCRC.
  assert (Hback : ∀ f : list byte,
             length f = 4 → toUint8Array (Z.of_nat (toNumber f)) = f).
  { intros f Hf.
    destruct f as [| b3 [| b2 [| b1 [| b0 [| ? ?]]]]]; try done.
    rewrite toUint8Array_eq. unfold toNumber. cbn [toNumber_loop].
    pose proof (Byte.to_nat_bounded b3). pose proof (Byte.to_nat_bounded b2).
    pose proof (Byte.to_nat_bounded b1). pose proof (Byte.to_nat_bounded b0).
    repeat first [rewrite Nat2Z.inj_add | rewrite Nat2Z.inj_mul].
    change (Z.of_nat 256) with 256%Z. change (Z.of_nat 0) with 0%Z.
    assert (Hrem : ∀ v b, (v mod 256 = Z.of_nat (Byte.to_nat b))%Z →
                          ofZ (Z.rem v 256) = b).
    { intros v b Hv. apply ofZ_byte. rewrite <- Hv.
      Z.to_euclidean_division_equations. lia. }
    repeat f_equal; apply Hrem; Z.div_mod_to_equations; lia. }
  intros Hlen. split; [by apply Hback |].
  intros Hother Heq.
  by rewrite <- (Hback field Hlen), <- (Hback other Hother), Heq.
Qed.

(** X5 ([concatUint8Array]): the two loops (size the result, then copy each
    array at the running offset) produce the arrays one after the other: the
    result is their concatenation, its length is the sum of their lengths,
    and concatenating two groups of arrays is the same as concatenating each
    group and joining the results. *)
Theorem concatUint8Array_spec (arrays more : list (list byte)) :
  concatUint8Array arrays = concat arrays
  ∧ length (concatUint8Array arrays) = sum_list (length <$> arrays)
  ∧ concatUint8Array (arrays ++ more)
    = concatUint8Array arrays ++ concatUint8Array more.
Proof.
  rewrite !concatUint8Array_concat. split; [done |]. split.
  - induction arrays as [| a arrays IH]; [done |].
    rewrite fmap_cons. cbn [concat sum_list sum_list_with id].
    rewrite length_app. lia.
  - apply concat_app.
Qed.

(** X6 ([Reader.read]): a read returns the bytes between the old and the
    new offset that exist, at most [bytes] of them and none once the offset
    is at or past the end; it never fails and always advances the offset by
    [bytes].  Two reads in a row return together what one read of the summed
    size returns, and leave the reader in the same state. *)
Theorem read_sequence (this : Reader) (m n : nat) :
  let first := read m this in
  let second := read n (snd first) in
  fst first ++ fst second = fst (read (m + n) this)
  ∧ snd second = snd (read (m + n) this)
  ∧ buffer (snd first) = buffer this
  ∧ offset (snd first) = offset this + m
  ∧ length (fst first) = Nat.min m (length (buffer this) - offset this)
  ∧ fst first = take m (drop (offset this) (buffer this))
  ∧ (length (buffer this) ≤ offset this → fst first = []).
Proof.
  cbv zeta. rewrite !read_eq. cbn [fst snd buffer offset].
  split; [| split; [| split; [| split; [| split; [| split]]]]].
  - rewrite subarray_app by lia. f_equal. lia.
  - f_equal. lia.
  - done.
  - done.
  - rewrite length_subarray. lia.
  - rewrite subarray_take_drop. f_equal. lia.
  - intros Hend. rewrite subarray_take_drop, drop_ge by done.
    apply take_nil.
Qed.

Lemma take_eq_prefix (n : nat) (data prefix : list byte) :
  length prefix = n →
  take n data = prefix ↔ ∃ rest, data = prefix ++ rest.
Proof.
  intros Hlen. split.
  - intros <-. exists (drop n data). by rewrite take_drop.
  - intros [rest ->]. by apply take_app_length'.
Qed.

(** X7 (detector as prefix tests): [hasPngHeader] holds exactly of the
    buffers that begin with the 8 magic bytes, [hasCgbiChunk] at an offset
    exactly of the buffers that hold the 8 CgBI framing bytes at that offset,
    [isCgbiPng] exactly of the buffers that begin with the magic bytes
    followed by the framing bytes, and [isStandardPng] exactly of the buffers
    that begin with the magic bytes followed by anything else, the end of
    the buffer included.  The bytes behind these 16 never matter. *)
Theorem detector_prefix (data : list byte) (offset : nat) :
  (hasPngHeader data = true ↔ ∃ rest, data = PNG_HEADER ++ rest)
  ∧ (hasCgbiChunk data offset = true ↔
     ∃ before rest, length before = offset
                    ∧ data = before ++ CGBI_CHUNK ++ rest)
  ∧ (isCgbiPng data = true ↔
     ∃ rest, data = PNG_HEADER ++ CGBI_CHUNK ++ rest)
  ∧ (isStandardPng data = true ↔
     ∃ rest, data = PNG_HEADER ++ rest ∧ take 8 rest ≠ CGBI_CHUNK).
Proof.
  assert (Hhdr : hasPngHeader data = true ↔ ∃ rest, data = PNG_HEADER ++ rest).
  { rewrite hasPngHeader_true. by apply take_eq_prefix. }
  assert (Hmark : ∀ rest,
             hasCgbiChunk (PNG_HEADER ++ rest) 8 = true
             ↔ take 8 rest = CGBI_CHUNK).
  { intros rest. rewrite hasCgbiChunk_true. by rewrite drop_app_length'. }
  split; [exact Hhdr |]. split; [| split].
  - rewrite hasCgbiChunk_true, take_eq_prefix by done. split.
    + intros [rest Hrest]. exists (take offset data), rest.
      destruct (Nat.le_gt_cases offset (length data)) as [Hle | Hgt].
      * split; [by rewrite length_take_le |].
        by rewrite <- Hrest, take_drop.
      * rewrite drop_ge in Hrest by lia. done.
    + intros (before & rest & <- & ->). exists rest.
      by rewrite drop_app_length.
  - unfold isCgbiPng, defaultOffset. rewrite andb_true_iff, Hhdr. split.
    + intros [[rest ->] Hm]. apply Hmark, take_eq_prefix in Hm as [rest' ->];
        [eauto | done].
    + intros [rest ->]. split; [eauto |].
      apply Hmark. by apply take_app_length'.
  - unfold isStandardPng, defaultOffset.
    rewrite andb_true_iff, negb_true_iff, Hhdr. split.
    + intros [[rest ->] Hm]. exists rest. split; [done |].
      intros Heq. apply Hmark in Heq. congruence.
    + intros (rest & -> & Hne). split; [eauto |].
      apply not_true_is_false. by rewrite Hmark.
Qed.

(** ** Further properties of the pixel walk *)

Lemma swapBGRA_lookup (x : nat) :
  ∀ l : list byte,
    4 * x + 4 ≤ length l →
    swapBGRA l !! (4 * x) = l !! (4 * x + 2)
    ∧ swapBGRA l !! (4 * x + 1) = l !! (4 * x + 1)
    ∧ swapBGRA l !! (4 * x + 2) = l !! (4 * x)
    ∧ swapBGRA l !! (4 * x + 3) = l !! (4 * x + 3).
Proof.
  induction x as [| x IH]; intros l Hlen;
    destruct l as [| r [| g [| b [| a l']]]]; simpl in Hlen; try lia.
  - done.
  - replace (4 * S x) with (S (S (S (S (4 * x))))) by lia.
    cbn [swapBGRA Nat.add lookup list_lookup].
    apply IH. lia.
Qed.

Lemma swapRows_lookup (width y : nat) :
  ∀ (height : nat) (l : list byte) (i : nat),
    length l = geometry width height → y < height → i < 1 + 4 * width →
    swapRows height width l !! (y * (1 + 4 * width) + i)
    = match drop (y * (1 + 4 * width)) l with
      | f :: rest => (f :: swapBGRA (take (4 * width) rest)) !! i
      | [] => None
      end.
Proof.
  unfold geometry.
  induction y as [| y IH]; intros height l i Hlen Hy Hi;
    (destruct height as [| height]; [lia |]);
    (destruct l as [| f l']; [simpl in Hlen; lia |]);
    assert (Hl' : length l' = 4 * width + height * (1 + 4 * width))
      by (simpl in Hlen; lia);
    cbn [swapRows].
  - change (0 * (1 + 4 * width) + i) with i.
    change (0 * (1 + 4 * width)) with 0. cbn [drop].
    destruct i as [| i]; [done |]. cbn [lookup list_lookup].
    apply lookup_app_l. rewrite swapBGRA_length, length_take. lia.
  - replace (S y * (1 + 4 * width) + i)
      with (S (4 * width + (y * (1 + 4 * width) + i))) by lia.
    replace (S y * (1 + 4 * width))
      with (S (4 * width + y * (1 + 4 * width))) by lia.
    cbn [lookup list_lookup drop].
    etransitivity;
      [apply lookup_app_r; rewrite swapBGRA_length, length_take; lia |].
    rewrite swapBGRA_length, length_take, Nat.min_l by lia.
    replace (4 * width + (y * (1 + 4 * width) + i) - 4 * width)
      with (y * (1 + 4 * width) + i) by lia.
    rewrite IH by (rewrite ?length_drop; lia).
    by rewrite drop_drop.
Qed.

(** X8 (what the walk does to each byte): on a buffer of valid scanline
    geometry, in scanline [y] the filter byte stays where it is, and in
    pixel [x] of that scanline the bytes at positions 0 and 2 change places
    while the bytes at positions 1 and 3 stay. *)
Theorem byteSwap_pixel (buffer : list byte) (width height y x : nat) :
  length buffer = height * (1 + 4 * width) →
  y < height → x < width →
  let out := byteSwap buffer width height in
  let line := y * (1 + 4 * width) in
  let pixel := line + 1 + 4 * x in
  out !! line = buffer !! line
  ∧ out !! pixel = buffer !! (pixel + 2)
  ∧ out !! (pixel + 1) = buffer !! (pixel + 1)
  ∧ out !! (pixel + 2) = buffer !! pixel
  ∧ out !! (pixel + 3) = buffer !! (pixel + 3).
Proof.
  intros Hlen Hy Hx. cbv zeta.
  fold (geometry width height) in Hlen.
  rewrite byteSwap_geometry by done.
  assert (Hrow : ∀ i, i < 1 + 4 * width →
            swapRows height width buffer !! (y * (1 + 4 * width) + i)
            = match drop (y * (1 + 4 * width)) buffer with
              | f :: rest => (f :: swapBGRA (take (4 * width) rest)) !! i
              | [] => None
              end)
    by (intros i Hi; by apply swapRows_lookup).
  assert (Hin : ∀ i, buffer !! (y * (1 + 4 * width) + i)
                     = drop (y * (1 + 4 * width)) buffer !! i)
    by (intros i; by rewrite lookup_drop).
  assert (Hroom : (S y) * (1 + 4 * width) ≤ length buffer).
  { rewrite Hlen. unfold geometry. apply Nat.mul_le_mono_r. lia. }
  destruct (drop (y * (1 + 4 * width)) buffer) as [| f rest] eqn:Hdrop.
  { apply (f_equal length) in Hdrop. rewrite length_drop in Hdrop.
    simpl in Hdrop. lia. }
  assert (Hrest : 4 * width ≤ length rest).
  { apply (f_equal length) in Hdrop. rewrite length_drop in Hdrop.
    simpl in Hdrop. lia. }
  destruct (swapBGRA_lookup x (take (4 * width) rest))
    as (H0 & H1 & H2 & H3); [rewrite length_take; lia |].
  rewrite !lookup_take_lt in H0, H1, H2, H3 by lia.
  rewrite <- (Nat.add_0_r (y * (1 + 4 * width))) at 1 2.
  rewrite (Hrow 0), (Hin 0) by lia.
  replace (y * (1 + 4 * width) + 1 + 4 * x + 2)
    with (y * (1 + 4 * width) + S (4 * x + 2)) by lia.
  replace (y * (1 + 4 * width) + 1 + 4 * x + 1)
    with (y * (1 + 4 * width) + S (4 * x + 1)) by lia.
  replace (y * (1 + 4 * width) + 1 + 4 * x + 3)
    with (y * (1 + 4 * width) + S (4 * x + 3)) by lia.
  replace (y * (1 + 4 * width) + 1 + 4 * x)
    with (y * (1 + 4 * width) + S (4 * x)) by lia.
  rewrite !Hrow, !Hin by lia.
  cbn [lookup list_lookup]. done.
Qed.

Lemma take_put (n : nat) (a : list byte) (i : nat) (v : option byte) :
  take n (put a i v) = put (take n a) i v.
Proof.
  unfold put. destruct (Nat.lt_ge_cases i n) as [Hlt | Hge].
  - by apply take_insert_lt.
  - rewrite take_insert_ge by done.
    rewrite list_insert_ge; [done |]. rewrite length_take. lia.
Qed.

Lemma put_same_stored (a : list byte) (i : nat) (v v' : option byte) :
  toUint8 v = toUint8 v' → put a i v = put a i v'.
Proof. unfold put. by intros ->. Qed.

Section Padding.

(** Two streams that store the same byte wherever the walk reads. *)
Variables decompressed padded : list byte.
Hypothesis same_stored :
  ∀ i, toUint8 (get decompressed i) = toUint8 (get padded i).
Variable n : nat.

Lemma swapPixel_padded (newIdat : list byte) (off : nat) :
  swapPixel decompressed (take n newIdat, off)
  = (take n (fst (swapPixel padded (newIdat, off))),
     snd (swapPixel padded (newIdat, off))).
Proof.
  unfold swapPixel. cbn [fst snd].
  rewrite !take_put.
  rewrite (put_same_stored _ off _ _ (same_stored (off + 2))).
  rewrite (put_same_stored _ (off + 1) _ _ (same_stored (off + 1))).
  rewrite (put_same_stored _ (off + 2) _ _ (same_stored off)).
  rewrite (put_same_stored _ (off + 3) _ _ (same_stored (off + 3))).
  done.
Qed.

Lemma swapPixels_padded (width : nat) :
  ∀ (newIdat : list byte) (off : nat),
    swapPixels width decompressed (take n newIdat, off)
    = (take n (fst (swapPixels width padded (newIdat, off))),
       snd (swapPixels width padded (newIdat, off))).
Proof.
  induction width as [| width IH]; intros newIdat off; [done |].
  cbn [swapPixels]. rewrite swapPixel_padded.
  destruct (swapPixel padded (newIdat, off)) as [newIdat' off'].
  apply IH.
Qed.

Lemma swapScanline_padded (width : nat) (newIdat : list byte) (off : nat) :
  swapScanline width decompressed (take n newIdat, off)
  = (take n (fst (swapScanline width padded (newIdat, off))),
     snd (swapScanline width padded (newIdat, off))).
Proof.
  unfold swapScanline.
  rewrite <- take_put, (put_same_stored _ off _ _ (same_stored off)).
  apply swapPixels_padded.
Qed.

Lemma swapScanlines_padded (height width : nat) :
  ∀ (newIdat : list byte) (off : nat),
    swapScanlines height width decompressed (take n newIdat, off)
    = (take n (fst (swapScanlines height width padded (newIdat, off))),
       snd (swapScanlines height width padded (newIdat, off))).
Proof.
  induction height as [| height IH]; intros newIdat off; [done |].
  cbn [swapScanlines]. rewrite swapScanline_padded.
  destruct (swapScanline width padded (newIdat, off)) as [newIdat' off'].
  apply IH.
Qed.

End Padding.

(** X9 (short streams): when the inflated stream is shorter than
    height * (1 + 4 * width), the walk behaves as on the stream padded with
    zero bytes up to that size, cut back to the length of the stream: a read
    past the end stores 0 and a store past the end is dropped.  So a pixel
    that the end of the stream cuts in two is not swapped but partly zeroed,
    and the length never changes. *)
Theorem byteSwap_short (decompressed : list byte) (width height : nat) :
  length decompressed ≤ height * (1 + 4 * width) →
  let missing := height * (1 + 4 * width) - length decompressed in
  byteSwap decompressed width height
  = take (length decompressed)
      (byteSwap (decompressed ++ replicate missing x00) width height)
  ∧ byteSwap decompressed width height
    = take (length decompressed)
        (swapRows height width (decompressed ++ replicate missing x00))
  ∧ length (byteSwap decompressed width height) = length decompressed.
Proof.
  intros Hlen. cbv zeta.
  set (padded := decompressed
                 ++ replicate (height * (1 + 4 * width) - length decompressed)
                      x00).
  assert (Hpad : length padded = geometry width height).
  { unfold padded, geometry. rewrite length_app, length_replicate. lia. }
  assert (Hsame : ∀ i, toUint8 (get decompressed i) = toUint8 (get padded i)).
  { intros i. unfold get, padded.
    destruct (Nat.lt_ge_cases i (length decompressed)) as [Hlt | Hge].
    - by rewrite lookup_app_l.
    - rewrite lookup_app_r, (lookup_ge_None_2 decompressed) by done.
      destruct (replicate _ x00 !! _) as [b |] eqn:Hb; [| done].
      by apply lookup_replicate in Hb as [-> _]. }
  assert (Hfirst : byteSwap decompressed width height
                   = take (length decompressed)
                       (byteSwap padded width height)).
  { unfold byteSwap, alloc.
    replace (replicate (length decompressed) x00)
      with (take (length decompressed) (replicate (length padded) x00))
      by (rewrite take_replicate; f_equal; unfold geometry in Hpad; lia).
    by rewrite (swapScanlines_padded decompressed padded Hsame). }
  split; [exact Hfirst |]. split; [| apply length_byteSwap].
  by rewrite Hfirst, byteSwap_geometry.
Qed.

(** ** Further properties of the converter *)

Lemma headerChunk_complete (data : list byte) :
  typeTag (headerChunk data) = IHDR_TAG →
  length (lengthField (headerChunk data)) = 4.
Proof.
  rewrite headerChunk_eq. cbv zeta. cbn [typeTag lengthField].
  intros Htag. apply (f_equal length) in Htag.
  rewrite length_subarray in Htag. rewrite length_subarray.
  change (length IHDR_TAG) with 4 in Htag. lia.
Qed.

(** X10 (direction of the conversion): a successful conversion always
    changes the format as the detector sees it: the output starts with the
    magic header, it is a CgBI file exactly when the input was a standard
    file, and a standard file exactly when the input was a CgBI file. *)
Theorem convert_flips_format (data out : list byte) :
  convert data = Ok out →
  hasPngHeader out = true
  ∧ isCgbiPng out = isStandardPng data
  ∧ isStandardPng out = isCgbiPng data.
Proof.
  intros Hok.
  apply convert_Ok_inv in Hok as (Hhdr & Htype & newIdat & _ & ->).
  apply (hasType_true IHDR_TAG) in Htype.
  pose proof (headerChunk_complete data Htype) as Hlen.
  assert (Hout : hasPngHeader (assemble data newIdat
                                 (calculateCRC "IDAT" newIdat)) = true).
  { apply hasPngHeader_true. unfold assemble. by rewrite take_app_length'. }
  assert (Hmark : hasCgbiChunk (assemble data newIdat
                                  (calculateCRC "IDAT" newIdat)) 8
                  = negb (hasCgbiChunk data 8)).
  { unfold assemble, insertedMarker.
    destruct (hasCgbiChunk data 8); cbn [negb].
    - apply not_true_is_false. rewrite hasCgbiChunk_true.
      rewrite drop_app_length' by done. cbn [app].
      unfold chunkBytes at 1. rewrite Htype.
      rewrite <- !app_assoc, (app_assoc (lengthField _)).
      rewrite take_app_length' by (by rewrite length_app, Hlen).
      intros Heq. apply (f_equal (drop 4)) in Heq.
      by rewrite drop_app_length' in Heq.
    - apply hasCgbiChunk_true. rewrite drop_app_length' by done.
      rewrite <- !app_assoc. by rewrite take_app_length'. }
  split; [exact Hout |].
  unfold isCgbiPng, isStandardPng, defaultOffset.
  rewrite Hout, Hmark, Hhdr. cbn [andb]. by rewrite negb_involutive.
Qed.

Lemma scanChunks_step (fuel : nat) (data : list byte) (off : nat)
    (result idat : list (list byte)) :
  scanChunks (S fuel) data (mkReader data off) result idat
  = if negb (off <? length data) then Some (mkReader data off, result, idat)
    else
      let len := subarray data off (off + 4) in
      let tag := subarray data (off + 4) (off + 4 + 4) in
      let body := subarray data (off + 4 + 4) (off + 4 + 4 + toNumber len) in
      let sum := subarray data (off + 4 + 4 + toNumber len)
                   (off + 4 + 4 + toNumber len + 4) in
      let next := mkReader data (off + 4 + 4 + toNumber len + 4) in
      if String.eqb (fromCharCode tag) "IDAT" then
        scanChunks fuel data next result (idat ++ [body])
      else if String.eqb (fromCharCode tag) "iDOT" then
        scanChunks fuel data next result idat
      else if String.eqb (fromCharCode tag) "IEND" then
        Some (next, result, idat)
      else
        scanChunks fuel data next (result ++ [len; tag; body; sum]) idat.
Proof.
  cbn [scanChunks offset]. destruct (off <? length data); [| done].
  cbn [negb]. rewrite !read_eq. done.
Qed.

Lemma scanChunks_more_fuel (data : list byte) (fuel : nat) :
  ∀ (off : nat) (result idat : list (list byte)),
    length data - off < fuel →
    scanChunks (S fuel) data (mkReader data off) result idat
    = scanChunks fuel data (mkReader data off) result idat.
Proof.
  induction fuel as [| fuel IH]; intros off result idat Hfuel; [lia |].
  rewrite (scanChunks_step (S fuel)), (scanChunks_step fuel).
  destruct (off <? length data) eqn:Hoff; cbn [negb]; [| done].
  apply Nat.ltb_lt in Hoff. cbv zeta.
  set (len := subarray data off (off + 4)).
  assert (Hnext : length data - (off + 4 + 4 + toNumber len + 4) < fuel)
    by lia.
  repeat (destruct (String.eqb _ _)); try done; by apply IH.
Qed.

Lemma scanChunks_appends (data : list byte) (fuel : nat) :
  ∀ (off : nat) (result idat : list (list byte)),
    length data - off < fuel →
    ∃ off' emitted collected,
      scanChunks fuel data (mkReader data off) result idat
      = Some (mkReader data off', result ++ emitted, idat ++ collected)
      ∧ off ≤ off' ∧ (off < length data → off + 12 ≤ off').
Proof.
  induction fuel as [| fuel IH]; intros off result idat Hfuel; [lia |].
  rewrite scanChunks_step.
  destruct (off <? length data) eqn:Hoff; cbn [negb].
  - apply Nat.ltb_lt in Hoff. cbv zeta.
    set (len := subarray data off (off + 4)).
    set (tag := subarray data (off + 4) (off + 4 + 4)).
    set (body := subarray data (off + 4 + 4) (off + 4 + 4 + toNumber len)).
    set (sum := subarray data (off + 4 + 4 + toNumber len)
                  (off + 4 + 4 + toNumber len + 4)).
    set (next := off + 4 + 4 + toNumber len + 4).
    assert (Hnext : length data - next < fuel) by (unfold next; lia).
    assert (Hle' : ∀ off', next ≤ off' →
                     off ≤ off' ∧ (off < length data → off + 12 ≤ off'))
      by (unfold next; lia).
    destruct (String.eqb (fromCharCode tag) "IDAT").
    { destruct (IH next result (idat ++ [body]) Hnext)
        as (off' & emitted & collected & -> & Hle & _).
      exists off', emitted, (body :: collected).
      split; [by rewrite <- app_assoc | by apply Hle']. }
    destruct (String.eqb (fromCharCode tag) "iDOT").
    { destruct (IH next result idat Hnext)
        as (off' & emitted & collected & -> & Hle & _).
      exists off', emitted, collected. split; [done | by apply Hle']. }
    destruct (String.eqb (fromCharCode tag) "IEND").
    { exists next, [], [].
      split; [by rewrite !app_nil_r | by apply Hle']. }
    destruct (IH next (result ++ [len; tag; body; sum]) idat Hnext)
      as (off' & emitted & collected & -> & Hle & _).
    exists off', (len :: tag :: body :: sum :: emitted), collected.
    split; [by rewrite <- app_assoc | by apply Hle'].
  - apply Nat.ltb_ge in Hoff. exists off, [], [].
    rewrite !app_nil_r. split; [done | lia].
Qed.

(** X11 (the scan loop ends): every round of the chunk scan moves the
    offset forward by at least 12 bytes, so from any offset the loop ends
    after at most [length data - offset + 1] rounds, whatever the length
    fields of the chunks say; a larger round budget does not change its
    result, and the loop only ever appends to the two arrays it was
    given. *)
Theorem scan_terminates (data : list byte) (off extra : nat)
    (result idat : list (list byte)) :
  ∃ off' emitted collected,
    scanChunks (S (length data - off)) data (mkReader data off) result idat
    = Some (mkReader data off', result ++ emitted, idat ++ collected)
    ∧ scanChunks (S (length data - off) + extra) data (mkReader data off)
        result idat
      = Some (mkReader data off', result ++ emitted, idat ++ collected)
    ∧ off ≤ off'
    ∧ (off < length data → off + 12 ≤ off').
Proof.
  assert (Hsame : scanChunks (S (length data - off) + extra) data
                    (mkReader data off) result idat
                  = scanChunks (S (length data - off)) data
                      (mkReader data off) result idat).
  { induction extra as [| extra IH].
    - by rewrite Nat.add_0_r.
    - rewrite <- IH.
      replace (S (length data - off) + S extra)
        with (S (S (length data - off) + extra)) by lia.
      apply scanChunks_more_fuel. lia. }
  destruct (scanChunks_appends data (S (length data - off)) off result idat)
    as (off' & emitted & collected & Hscan & Hle & Hstep); [lia |].
  exists off', emitted, collected. by rewrite Hsame.
Qed.

(** X12 (codec errors): [convert] ends with the error of the codec exactly
    when the magic header and the IHDR tag are in place and the codec
    rejects: either the inflate variant selected by the marker check rejects
    the concatenated IDAT payloads, or the matching deflate variant rejects
    the swapped stream.  A wrong magic header or first tag is reported
    before the codec is called at all. *)
Theorem codec_error_iff (data : list byte) :
  let inflate_ :=
    if hasCgbiChunk data 8 then Zlib.inflateRaw zlib else Zlib.inflate zlib in
  let deflate_ :=
    if hasCgbiChunk data 8 then Zlib.deflate zlib else Zlib.deflateRaw zlib in
  convert data = Throw CodecError
  ↔ take 8 data = PNG_HEADER
    ∧ typeTag (headerChunk data) = IHDR_TAG
    ∧ (inflate_ (rawIdat data) = None
       ∨ ∃ decompressed,
           inflate_ (rawIdat data) = Some decompressed
           ∧ deflate_ (byteSwap decompressed (headerWidth data)
                         (headerHeight data)) = None).
Proof.
  cbv zeta. rewrite convert_eq, <- hasPngHeader_true.
  rewrite <- (hasType_true IHDR_TAG).
  change (fromCharCode IHDR_TAG) with "IHDR"%string.
  destruct (hasPngHeader data); cbn [negb];
    [| split; [done | by intros [? _]]].
  destruct (hasType "IHDR" (headerChunk data)); cbn [negb];
    [| split; [done | by intros (_ & ? & _)]].
  unfold byteSwapIdat, byteSwapFunctionMap.
  destruct (hasCgbiChunk data 8);
    cbn [lookup list_lookup inflate deflate].
  - destruct (Zlib.inflateRaw zlib (rawIdat data)) as [d |];
      cbn [await mbind Result_bind]; [| by intuition].
    destruct (Zlib.deflate zlib _) as [z |] eqn:Hz; cbn [await].
    + split; [done |]. intros (_ & _ & [? | (d' & [= <-] & Hd)]); [done |].
      congruence.
    + split; [| done]. intros _. repeat split. right. by exists d.
  - destruct (Zlib.inflate zlib (rawIdat data)) as [d |];
      cbn [await mbind Result_bind]; [| by intuition].
    destruct (Zlib.deflateRaw zlib _) as [z |] eqn:Hz; cbn [await].
    + split; [done |]. intros (_ & _ & [? | (d' & [= <-] & Hd)]); [done |].
      congruence.
    + split; [| done]. intros _. repeat split. right. by exists d.
Qed.

(** X13 (what ends the scan): for an input made of complete chunks the
    result of [convert] does not depend on what follows them, as long as it
    is either nothing or something that starts like an IEND chunk (four
    length bytes and the tag): bytes after the IEND tag are never looked at,
    neither the CRC of IEND nor anything behind it, and an input that just
    ends without IEND converts like one with it. *)
Theorem convert_ignores_tail (marker : list byte) (ihdr : Chunk)
    (chunks : list Chunk) (tail tail' : list byte) :
  markerSlot marker → wellFramed ihdr → typeTag ihdr = IHDR_TAG →
  Forall wellFramed chunks →
  Forall (fun c => hasType "IEND" c = false) chunks →
  tailStops tail → tailStops tail' →
  convert (pngBytes marker ihdr chunks tail)
  = convert (pngBytes marker ihdr chunks tail')
  ∧ ∀ trailing,
      convert (pngBytes marker ihdr chunks (IEND_CHUNK ++ trailing))
      = convert (pngBytes marker ihdr chunks [])
      ∧ tailStops (IEND_CHUNK ++ trailing).
Proof.
  intros Hm Hi Ht Hf He Htail Htail'.
  assert (Hstop : ∀ trailing, tailStops (IEND_CHUNK ++ trailing)).
  { intros trailing. right.
    by exists [x00; x00; x00; x00], ([xae; x42; x60; x82] ++ trailing). }
  split.
  - by rewrite !convert_framed.
  - intros trailing. split; [| apply Hstop].
    by rewrite (convert_framed marker ihdr chunks (IEND_CHUNK ++ trailing)
                  Hm Hi Ht Hf He (Hstop trailing)),
               (convert_framed marker ihdr chunks [] Hm Hi Ht Hf He
                  (or_introl eq_refl)).
Qed.

(** X14 (what of the chunks matters): for inputs made of complete chunks
    with the same IHDR chunk and both with or both without a marker, the
    result of [convert] is the same whenever the pass-through chunks are the
    same in the same order and the IDAT payloads concatenate to the same
    bytes.  So the position of a pass-through chunk relative to the IDAT
    chunks, the way the image data is split over IDAT chunks, the CRC of an
    IDAT chunk, the presence of iDOT chunks and the last 8 bytes of the
    marker have no effect on the output. *)
Theorem convert_chunk_view (marker marker' : list byte) (ihdr : Chunk)
    (chunks chunks' : list Chunk) (tail tail' : list byte) :
  markerSlot marker → markerSlot marker' →
  (marker = [] ↔ marker' = []) →
  wellFramed ihdr → typeTag ihdr = IHDR_TAG →
  Forall wellFramed chunks → Forall wellFramed chunks' →
  Forall (fun c => hasType "IEND" c = false) chunks →
  Forall (fun c => hasType "IEND" c = false) chunks' →
  tailStops tail → tailStops tail' →
  List.filter isPassThrough chunks = List.filter isPassThrough chunks' →
  concat (payload <$> List.filter (hasType "IDAT") chunks)
  = concat (payload <$> List.filter (hasType "IDAT") chunks') →
  convert (pngBytes marker ihdr chunks tail)
  = convert (pngBytes marker' ihdr chunks' tail').
Proof.
  intros Hm Hm' Hboth Hi Ht Hf Hf' He He' Htail Htail' Hpass Hidat.
  rewrite !convert_framed by done. rewrite Hpass, Hidat.
  destruct marker, marker';
    [done | discriminate (proj1 Hboth eq_refl)
    | discriminate (proj2 Hboth eq_refl) | done].
Qed.

(** X15 (the output can be converted again): when the input is made of
    complete chunks and the output is shorter than 2^32 bytes, the output of
    a successful conversion is made of complete chunks as well, and reading
    it back finds the IHDR chunk of the input, hence the same width and
    height, followed by the pass-through chunks of the input and the one new
    IDAT chunk. *)
Theorem convert_output_framed (data out : list byte) :
  framedInput data →
  convert data = Ok out →
  (Z.of_nat (length out) < 2 ^ 32)%Z →
  framedInput out
  ∧ headerChunk out = headerChunk data
  ∧ headerWidth out = headerWidth data
  ∧ headerHeight out = headerHeight data
  ∧ ∃ newIdat,
      restChunks out
      = List.filter isPassThrough (restChunks data)
        ++ [idatChunk (calculateCRC "IDAT" newIdat) newIdat].
Proof.
  intros (marker & ihdr & chunks & tail & -> & Hm & Hi & Ht & Hf & He & Htl)
    Hok Hlen.
  destruct (framed_facts marker ihdr chunks tail Hm Hi Ht Hf He Htl)
    as (_ & _ & Hhc & Hrest).
  rewrite convert_framed in Hok by done.
  destruct (byteSwapIdat _ _ _ _) as [newIdat | e]; [| done].
  cbn [mbind Result_bind] in Hok. injection Hok as <-.
  set (marker' := if marker is [] then CGBI_CHUNK ++ CGBI_BGRA else []) in *.
  set (chunks' := List.filter isPassThrough chunks
                  ++ [idatChunk (calculateCRC "IDAT" newIdat) newIdat]) in *.
  assert (Hm' : markerSlot marker').
  { unfold marker'. destruct marker; [by right | by left]. }
  assert (Hnew : (Z.of_nat (length newIdat) < 2 ^ 32)%Z).
  { unfold pngBytes, chunks' in Hlen.
    rewrite fmap_app, concat_app in Hlen. cbn [fmap list_fmap concat] in Hlen.
    unfold chunkBytes at 3 in Hlen. cbn [payload idatChunk] in Hlen.
    rewrite !length_app in Hlen. lia. }
  assert (Hf' : Forall wellFramed chunks').
  { apply Forall_app. split; [by apply Forall_filter_keep |].
    repeat constructor. by apply wellFramed_idatChunk. }
  assert (He' : Forall (fun c => hasType "IEND" c = false) chunks').
  { apply Forall_app. split; [by apply Forall_filter_keep |].
    by repeat constructor. }
  destruct (framed_facts marker' ihdr chunks' IEND_CHUNK Hm' Hi Ht Hf' He'
              tailStops_IEND) as (_ & _ & Hhc' & Hrest').
  split.
  { exists marker', ihdr, chunks', IEND_CHUNK.
    exact (conj eq_refl (conj Hm' (conj Hi (conj Ht (conj Hf'
             (conj He' tailStops_IEND)))))). }
  change (pngBytes _ ihdr chunks' IEND_CHUNK)
    with (pngBytes marker' ihdr chunks' IEND_CHUNK).
  unfold headerWidth, headerHeight. rewrite Hhc', Hhc, Hrest', Hrest.
  do 3 (split; [done |]). by exists newIdat.
Qed.

Lemma rebuilt_chunks (chunks : list Chunk) (checksum : Z)
    (newIdat : list byte) :
  let chunks' := List.filter isPassThrough chunks
                 ++ [idatChunk checksum newIdat] in
  Forall wellFramed chunks →
  Forall (fun c => hasType "IEND" c = false) chunks →
  (Z.of_nat (length newIdat) < 2 ^ 32)%Z →
  Forall wellFramed chunks'
  ∧ Forall (fun c => hasType "IEND" c = false) chunks'
  ∧ concat (payload <$> List.filter (hasType "IDAT") chunks') = newIdat
  ∧ List.filter isPassThrough chunks' = List.filter isPassThrough chunks.
Proof.
  intros chunks' Hf He Hlen. unfold chunks'.
  split; [| split; [| split]].
  - apply Forall_app. split; [by apply Forall_filter_keep |].
    repeat constructor. by apply wellFramed_idatChunk.
  - apply Forall_app. split; [by apply Forall_filter_keep |].
    by repeat constructor.
  - rewrite List.filter_app, filter_IDAT_isPassThrough.
    cbn. by rewrite app_nil_r.
  - rewrite List.filter_app, filter_isPassThrough_idem.
    cbn. by rewrite app_nil_r.
Qed.

(** X16 (round trip from CgBI): let [C] be a CgBI file of complete chunks
    whose image data raw-inflates to a stream of valid 32-bit geometry, and
    let the codec give back what it compressed on the two streams involved.
    Then [convert C] is a standard file, and [convert (convert C)] is a CgBI
    file again with the canonical marker, the same IHDR chunk, the same
    pass-through chunks in the same order and one IDAT chunk whose data
    raw-inflates to the same stream. *)
Theorem convert_round_trip_cgbi (C marker : list byte) (ihdr : Chunk)
    (chunks : list Chunk) (pixels stdData cgbiData : list byte) :
  let width := toNumber (subarray (payload ihdr) 0 4) in
  let height := toNumber (subarray (payload ihdr) 4 8) in
  CgbiPng32 C marker ihdr chunks pixels →
  Zlib.deflate zlib (byteSwap pixels width height) = Some stdData →
  Zlib.inflate zlib stdData = Some (byteSwap pixels width height) →
  Zlib.deflateRaw zlib pixels = Some cgbiData →
  Zlib.inflateRaw zlib cgbiData = Some pixels →
  (Z.of_nat (length stdData) < 2 ^ 32)%Z →
  (Z.of_nat (length cgbiData) < 2 ^ 32)%Z →
  ∃ mid Q,
    convert C = Ok mid
    ∧ isStandardPng mid = true
    ∧ convert mid = Ok Q
    ∧ isCgbiPng Q = true
    ∧ Q = pngBytes (CGBI_CHUNK ++ CGBI_BGRA) ihdr
            (List.filter isPassThrough chunks
             ++ [idatChunk (calculateCRC "IDAT" cgbiData) cgbiData])
            IEND_CHUNK
    ∧ CgbiPng32 Q (CGBI_CHUNK ++ CGBI_BGRA) ihdr
        (List.filter isPassThrough chunks
         ++ [idatChunk (calculateCRC "IDAT" cgbiData) cgbiData])
        pixels.
Proof.
  intros width height HC Hdeflate1 Hinflate1 Hdeflate2 Hinflate2 Hlen1 Hlen2.
  destruct HC as [-> [Hm8 Hm16] Hihdr Htag Hframed Hiend Hpixels Hgeo].
  fold width height in Hgeo.
  assert (Hmarker : markerSlot marker) by (by right).
  assert (Hnonempty : (if marker is [] then false else true) = true)
    by (by destruct marker).
  set (chunks1 := List.filter isPassThrough chunks
                  ++ [idatChunk (calculateCRC "IDAT" stdData) stdData]).
  set (chunks2 := List.filter isPassThrough chunks
                  ++ [idatChunk (calculateCRC "IDAT" cgbiData) cgbiData]).
  destruct (rebuilt_chunks chunks (calculateCRC "IDAT" stdData) stdData
              Hframed Hiend Hlen1) as (Hf1 & He1 & Hidat1 & Hpass1).
  destruct (rebuilt_chunks chunks (calculateCRC "IDAT" cgbiData) cgbiData
              Hframed Hiend Hlen2) as (Hf2 & He2 & Hidat2 & Hpass2).
  fold chunks1 in Hf1, He1, Hidat1, Hpass1.
  fold chunks2 in Hf2, He2, Hidat2, Hpass2.
  assert (Hswapped : length (byteSwap pixels width height)
                     = geometry width height)
    by (by rewrite length_byteSwap).
  assert (Hmid : convert (pngBytes marker ihdr chunks IEND_CHUNK)
                 = Ok (pngBytes [] ihdr chunks1 IEND_CHUNK)).
  { rewrite (convert_framed marker ihdr chunks IEND_CHUNK Hmarker Hihdr Htag
               Hframed Hiend tailStops_IEND).
    fold width height. rewrite Hnonempty.
    unfold byteSwapIdat.
    cbn [byteSwapFunctionMap lookup list_lookup inflate deflate].
    rewrite Hpixels. cbn [await mbind Result_bind].
    rewrite Hdeflate1. cbn [await]. by destruct marker. }
  assert (HQ : convert (pngBytes [] ihdr chunks1 IEND_CHUNK)
               = Ok (pngBytes (CGBI_CHUNK ++ CGBI_BGRA) ihdr chunks2
                       IEND_CHUNK)).
  { rewrite (convert_framed [] ihdr chunks1 IEND_CHUNK (or_introl eq_refl)
               Hihdr Htag Hf1 He1 tailStops_IEND).
    fold width height. rewrite Hidat1, Hpass1.
    unfold byteSwapIdat.
    cbn [byteSwapFunctionMap lookup list_lookup inflate deflate].
    rewrite Hinflate1. cbn [await mbind Result_bind].
    rewrite byteSwap_twice by done.
    by rewrite Hdeflate2. }
  exists (pngBytes [] ihdr chunks1 IEND_CHUNK),
    (pngBytes (CGBI_CHUNK ++ CGBI_BGRA) ihdr chunks2 IEND_CHUNK).
  split; [exact Hmid |]. split.
  { destruct (framed_facts [] ihdr chunks1 IEND_CHUNK (or_introl eq_refl)
                Hihdr Htag Hf1 He1 tailStops_IEND) as (Hh & Hc & _).
    unfold isStandardPng, defaultOffset. by rewrite Hh, Hc. }
  split; [exact HQ |]. split.
  { destruct (framed_facts (CGBI_CHUNK ++ CGBI_BGRA) ihdr chunks2 IEND_CHUNK
                (or_intror (conj eq_refl eq_refl)) Hihdr Htag Hf2 He2
                tailStops_IEND) as (Hh & Hc & _).
    unfold isCgbiPng, defaultOffset. by rewrite Hh, Hc. }
  split; [done |].
  constructor; try done. by rewrite Hidat2.
Qed.

End Converter.

(** ** Worked examples *)

(** C2: the claim as first stated fails on a standard PNG that holds an
    iDOT chunk, and a tIME chunk behind the image data: both conversions
    succeed, but the result has lost the iDOT chunk and holds the tIME chunk
    before the image data, so its chunk content outside IDAT is not that of
    the input. *)
Lemma round_trip_counterexample :
  StandardPng32 Sample.zlib Sample.standardPng Sample.ihdr Sample.chunks
    Sample.pixels
  ∧ ∃ mid Q,
      convert Sample.zlib Sample.calculateCRC Sample.standardPng = Ok mid
      ∧ convert Sample.zlib Sample.calculateCRC mid = Ok Q
      ∧ headerChunk Sample.standardPng :: restChunks Sample.standardPng
        = [Sample.ihdr; Sample.tEXt; Sample.iDOT; Sample.idat1;
           Sample.idat2; Sample.tIME]
      ∧ headerChunk Q :: restChunks Q
        = [Sample.ihdr; Sample.tEXt; Sample.tIME;
           idatChunk (Sample.calculateCRC "IDAT"
                        (x78 :: x9c :: Sample.pixels))
             (x78 :: x9c :: Sample.pixels)]
      ∧ ¬ sameChunkContent Sample.standardPng Q.
Proof.
  split.
  { constructor; try reflexivity.
    - repeat split; reflexivity.
    - repeat constructor.
    - repeat constructor. }
  exists Sample.cgbiPng,
    (pngBytes [] Sample.ihdr
       [Sample.tEXt; Sample.tIME;
        idatChunk (Sample.calculateCRC "IDAT" (x78 :: x9c :: Sample.pixels))
          (x78 :: x9c :: Sample.pixels)]
       IEND_CHUNK).
  split; [vm_compute; reflexivity |]. split; [vm_compute; reflexivity |].
  split; [vm_compute; reflexivity |]. split; [vm_compute; reflexivity |].
  unfold sameChunkContent. intros H. vm_compute in H. discriminate H.
Qed.

(** C5: the claim as first stated fails on the magic header alone: the
    buffer ends before the marker window, yet [isStandardPng] is true. *)
Lemma detection_short_counterexample :
  ¬ (length PNG_HEADER < 16 →
     isStandardPng PNG_HEADER = false ∧ isCgbiPng PNG_HEADER = false).
Proof. intros H. by destruct H as [H _]; [vm_compute; lia |]. Qed.

Lemma detection_exclusive_witness :
  take 8 PNG_HEADER = PNG_HEADER ∧ length PNG_HEADER < 16
  ∧ isStandardPng PNG_HEADER = true
  ∧ isCgbiPng PNG_HEADER = false.
Proof.
  destruct (detection_exclusive PNG_HEADER) as (_ & _ & _ & _ & Hc & Hs).
  split; [reflexivity |]. split; [vm_compute; lia |].
  split; [apply Hs; [reflexivity | vm_compute; lia] |].
  apply Hc. vm_compute; lia.
Defined.

Lemma byteSwap_self_inverse_witness :
  length Sample.pixels = 1 * (1 + 4 * 2)
  ∧ byteSwap Sample.pixels 2 1 = Sample.swapped
  ∧ byteSwap (byteSwap Sample.pixels 2 1) 2 1 = Sample.pixels
  ∧ length (byteSwap Sample.pixels 2 1) = length Sample.pixels.
Proof.
  split; [reflexivity |]. split; [reflexivity |].
  destruct (byteSwap_self_inverse Sample.pixels 2 1 eq_refl) as (H1 & H2 & _).
  split; [exact H1 | exact H2].
Defined.

Lemma byteSwap_trailing_zero_witness :
  1 * (1 + 4 * 2) < length Sample.longStream
  ∧ byteSwap Sample.longStream 2 1 = Sample.swapped ++ [x00; x00]
  ∧ drop (1 * (1 + 4 * 2)) (byteSwap Sample.longStream 2 1)
    = replicate (length Sample.longStream - 1 * (1 + 4 * 2)) x00.
Proof.
  assert (H : 1 * (1 + 4 * 2) < length Sample.longStream)
    by (vm_compute; lia).
  split; [exact H |]. split; [reflexivity |].
  exact (proj1 (proj2 (byteSwap_trailing_zero Sample.longStream 2 1 H))).
Defined.

Lemma convert_rejects_non_png_witness :
  take 8 Sample.notPng ≠ PNG_HEADER
  ∧ convert Sample.zlib Sample.calculateCRC Sample.notPng
    = Throw (JsError "Data is not a PNG file.")
  ∧ convert Sample.zlib Sample.calculateCRC [x89; x50; x4e]
    = Throw (JsError "Data is not a PNG file.").
Proof.
  assert (H : take 8 Sample.notPng ≠ PNG_HEADER) by discriminate.
  split; [exact H |]. split.
  - exact (proj1 (convert_rejects_non_png Sample.zlib Sample.calculateCRC
                    Sample.notPng (or_introl H))).
  - apply (convert_rejects_non_png Sample.zlib Sample.calculateCRC).
    right. vm_compute. lia.
Defined.

Lemma convert_rejects_missing_IHDR_witness :
  take 8 Sample.idatFirst = PNG_HEADER
  ∧ subarray Sample.idatFirst (headerStart Sample.idatFirst + 4)
      (headerStart Sample.idatFirst + 8) = IDAT_TAG
  ∧ convert Sample.zlib Sample.calculateCRC Sample.idatFirst
    = Throw (JsError "Invalid PNG header: 49 44 41 54").
Proof.
  split; [reflexivity |]. split; [reflexivity |].
  apply (convert_rejects_missing_IHDR Sample.zlib Sample.calculateCRC
           Sample.idatFirst eq_refl); [discriminate | reflexivity].
Defined.

Lemma codec_selection_witness :
  convert Sample.zlib Sample.calculateCRC Sample.standardPng
  = Ok Sample.cgbiPng
  ∧ hasCgbiChunk Sample.standardPng 8 = false
  ∧ ∃ decompressed newIdat,
      Zlib.inflate Sample.zlib (rawIdat Sample.standardPng)
      = Some decompressed
      ∧ Zlib.deflateRaw Sample.zlib (byteSwap decompressed 2 1)
        = Some newIdat.
Proof.
  assert (H : convert Sample.zlib Sample.calculateCRC Sample.standardPng
              = Ok Sample.cgbiPng) by reflexivity.
  split; [exact H |]. split; [reflexivity |].
  destruct (proj2 (codec_selection Sample.zlib Sample.calculateCRC) _ _ H)
    as (decompressed & newIdat & _ & Hsel).
  exists decompressed, newIdat. exact Hsel.
Defined.

Lemma convert_layout_witness :
  convert Sample.zlib Sample.calculateCRC Sample.standardPng
  = Ok Sample.cgbiPng
  ∧ ∃ newIdat,
      Sample.cgbiPng
      = PNG_HEADER ++ (CGBI_CHUNK ++ CGBI_BGRA)
        ++ chunkBytes Sample.ihdr
        ++ (chunkBytes Sample.tEXt ++ chunkBytes Sample.tIME)
        ++ idatFrame (Sample.calculateCRC "IDAT" newIdat) newIdat
        ++ IEND_CHUNK
      ∧ idatFrame (Sample.calculateCRC "IDAT" newIdat) newIdat
        = [x00; x00; x00; x09; x49; x44; x41; x54] ++ Sample.swapped
          ++ [x00; x00; x00; x24].
Proof.
  assert (H : convert Sample.zlib Sample.calculateCRC Sample.standardPng
              = Ok Sample.cgbiPng) by reflexivity.
  split; [exact H |].
  destruct (convert_layout Sample.zlib Sample.calculateCRC _ _ H)
    as (newIdat & Hswap & _).
  exists newIdat.
  vm_compute in Hswap. injection Hswap as <-.
  split; vm_compute; reflexivity.
Defined.

Lemma pass_through_fidelity_witness :
  convert Sample.zlib Sample.calculateCRC Sample.standardPng
  = Ok Sample.cgbiPng
  ∧ embedded [Sample.tEXt; Sample.tIME] Sample.cgbiPng.
Proof.
  assert (H : convert Sample.zlib Sample.calculateCRC Sample.standardPng
              = Ok Sample.cgbiPng) by reflexivity.
  split; [exact H |].
  exact (proj1 (pass_through_fidelity Sample.zlib Sample.calculateCRC
                  _ _ H)).
Defined.

Lemma iDOT_dropped_witness :
  convert Sample.zlib Sample.calculateCRC Sample.standardPng
  = Ok Sample.cgbiPng
  ∧ In Sample.iDOT (scannedChunks Sample.standardPng 8)
  ∧ ∃ newIdat,
      Forall (fun c => hasType "iDOT" c = false)
        (emittedChunks Sample.standardPng newIdat
           (Sample.calculateCRC "IDAT" newIdat)).
Proof.
  assert (H : convert Sample.zlib Sample.calculateCRC Sample.standardPng
              = Ok Sample.cgbiPng) by reflexivity.
  split; [exact H |]. split; [vm_compute; tauto |].
  destruct (iDOT_dropped Sample.zlib Sample.calculateCRC _ _ H)
    as (newIdat & _ & Hall & _).
  by exists newIdat.
Defined.

Lemma convert_round_trip_witness :
  StandardPng32 Sample.zlib Sample.standardPng Sample.ihdr Sample.chunks
    Sample.pixels
  ∧ ∃ mid Q,
      convert Sample.zlib Sample.calculateCRC Sample.standardPng = Ok mid
      ∧ convert Sample.zlib Sample.calculateCRC mid = Ok Q
      ∧ StandardPng32 Sample.zlib Q Sample.ihdr
          [Sample.tEXt; Sample.tIME;
           idatChunk (Sample.calculateCRC "IDAT"
                        (x78 :: x9c :: Sample.pixels))
             (x78 :: x9c :: Sample.pixels)]
          Sample.pixels.
Proof.
  assert (Hstd : StandardPng32 Sample.zlib Sample.standardPng Sample.ihdr
                   Sample.chunks Sample.pixels).
  { constructor; try reflexivity.
    - repeat split; reflexivity.
    - repeat constructor.
    - repeat constructor. }
  split; [exact Hstd |].
  destruct (convert_round_trip Sample.zlib Sample.calculateCRC
              Sample.standardPng Sample.ihdr Sample.chunks Sample.pixels
              Sample.swapped (x78 :: x9c :: Sample.pixels) Hstd
              eq_refl eq_refl eq_refl eq_refl eq_refl eq_refl)
    as (mid & Q & H1 & _ & H2 & _ & _ & H3 & _).
  exists mid, Q. split; [exact H1 |]. split; [exact H2 |]. exact H3.
Defined.

(** ** Worked examples for the further properties *)

Lemma sample_chunks_framed : Forall wellFramed Sample.chunks.
Proof. repeat constructor. Qed.

Lemma sample_chunks_before_IEND :
  Forall (fun c => hasType "IEND" c = false) Sample.chunks.
Proof. repeat constructor. Qed.

Lemma sample_ihdr_framed : wellFramed Sample.ihdr.
Proof. repeat split. Qed.

Lemma sample_framedInput : framedInput Sample.standardPng.
Proof.
  exists [], Sample.ihdr, Sample.chunks, IEND_CHUNK.
  split; [reflexivity |]. split; [by left |].
  split; [apply sample_ihdr_framed |]. split; [reflexivity |].
  split; [apply sample_chunks_framed |].
  split; [apply sample_chunks_before_IEND |].
  right. by exists [x00; x00; x00; x00], [xae; x42; x60; x82].
Qed.

Lemma isEquals_decides_witness :
  length PNG_HEADER ≠ length IHDR_TAG
  ∧ isEquals PNG_HEADER IHDR_TAG = false
  ∧ isEquals IHDR_TAG (IHDR_TAG ++ [x00]) = false.
Proof.
  assert (H : length PNG_HEADER ≠ length IHDR_TAG) by discriminate.
  split; [exact H |]. split.
  - exact (proj1 (proj2 (proj2 (isEquals_decides PNG_HEADER IHDR_TAG))) H).
  - apply (isEquals_decides IHDR_TAG IHDR_TAG). discriminate.
Defined.

Lemma toNumber_big_endian_witness :
  length ([x00] ++ [x00; x01; x02]) ≤ 6
  ∧ length [x00; x01; x02] ≤ 4
  ∧ toNumber ([x00] ++ [x00; x01; x02]) = 0 * 256 ^ 3 + 258
  ∧ toNumber ([x00] ++ [x00; x01; x02]) = toNumber [x00; x01; x02]
  ∧ (Z.of_nat (toNumber [x00; x01; x02]) < 2 ^ 32)%Z.
Proof.
  assert (H6 : length ([x00] ++ [x00; x01; x02]) ≤ 6) by (vm_compute; lia).
  assert (H4 : length [x00; x01; x02] ≤ 4) by (vm_compute; lia).
  pose proof (toNumber_big_endian [x00] [x00; x01; x02] H6)
    as (Happ & _ & _ & Hzero & Hlt).
  split; [exact H6 |]. split; [exact H4 |]. split; [exact Happ |].
  split; [exact (Hzero eq_refl) | exact (Hlt H4)].
Defined.

Lemma toNumber_toUint8Array_mod_witness :
  (0 ≤ 258 < 2 ^ 32)%Z
  ∧ toUint8Array 258 = [x00; x00; x01; x02]
  ∧ Z.of_nat (toNumber (toUint8Array 258)) = 258%Z
  ∧ toUint8Array (-1) = [xff; xff; xff; xff]
  ∧ Z.of_nat (toNumber (toUint8Array (-1))) = (2 ^ 32 - 1)%Z.
Proof.
  assert (H : (0 ≤ 258 < 2 ^ 32)%Z) by (vm_compute; split; congruence).
  split; [exact H |]. split; [reflexivity |]. split.
  - exact (proj2 (proj2 (toNumber_toUint8Array_mod 258)) H).
  - split; [reflexivity |].
    exact (proj1 (proj2 (toNumber_toUint8Array_mod (-1)))).
Defined.

Lemma toUint8Array_toNumber_witness :
  length [x00; x00; x01; x02] = 4
  ∧ toUint8Array (Z.of_nat (toNumber [x00; x00; x01; x02]))
    = [x00; x00; x01; x02].
Proof.
  split; [reflexivity |].
  exact (proj1 (toUint8Array_toNumber [x00; x00; x01; x02] [] eq_refl)).
Defined.

Lemma read_sequence_witness :
  length (buffer (mkReader PNG_HEADER 8)) ≤ offset (mkReader PNG_HEADER 8)
  ∧ fst (read 4 (mkReader PNG_HEADER 8)) = []
  ∧ fst (read 4 (mkReader PNG_HEADER 6)) = [x1a; x0a]
  ∧ offset (snd (read 4 (mkReader PNG_HEADER 6))) = 10.
Proof.
  assert (H : length (buffer (mkReader PNG_HEADER 8))
              ≤ offset (mkReader PNG_HEADER 8)) by (vm_compute; lia).
  split; [exact H |]. split.
  - destruct (read_sequence (mkReader PNG_HEADER 8) 4 0)
      as (_ & _ & _ & _ & _ & _ & Hend).
    exact (Hend H).
  - split; reflexivity.
Defined.

Lemma byteSwap_pixel_witness :
  length Sample.pixels = 1 * (1 + 4 * 2)
  ∧ byteSwap Sample.pixels 2 1 !! 5 = Sample.pixels !! 7
  ∧ byteSwap Sample.pixels 2 1 !! 7 = Sample.pixels !! 5
  ∧ byteSwap Sample.pixels 2 1 !! 6 = Sample.pixels !! 6.
Proof.
  split; [reflexivity |].
  destruct (byteSwap_pixel Sample.pixels 2 1 0 1 eq_refl)
    as (_ & H0 & H1 & H2 & _); [lia | lia |].
  split; [exact H0 |]. split; [exact H2 | exact H1].
Defined.

Lemma byteSwap_short_witness :
  length Sample.shortStream ≤ 1 * (1 + 4 * 1)
  ∧ byteSwap Sample.shortStream 1 1 = [x00; x00; x02]
  ∧ byteSwap Sample.shortStream 1 1
    = take 3 (byteSwap (Sample.shortStream ++ [x00; x00]) 1 1).
Proof.
  assert (H : length Sample.shortStream ≤ 1 * (1 + 4 * 1))
    by (vm_compute; lia).
  split; [exact H |]. split; [reflexivity |].
  exact (proj1 (byteSwap_short Sample.shortStream 1 1 H)).
Defined.

Lemma convert_flips_format_witness :
  convert Sample.zlib Sample.calculateCRC Sample.standardPng
  = Ok Sample.cgbiPng
  ∧ isStandardPng Sample.standardPng = true
  ∧ isCgbiPng Sample.cgbiPng = isStandardPng Sample.standardPng.
Proof.
  assert (H : convert Sample.zlib Sample.calculateCRC Sample.standardPng
              = Ok Sample.cgbiPng) by reflexivity.
  split; [exact H |]. split; [reflexivity |].
  exact (proj1 (proj2 (convert_flips_format Sample.zlib Sample.calculateCRC
                         _ _ H))).
Defined.

Lemma scan_terminates_witness :
  ∃ off' emitted collected,
    scanChunks (S (length Sample.standardPng - 33)) Sample.standardPng
      (mkReader Sample.standardPng 33) [] []
    = Some (mkReader Sample.standardPng off', [] ++ emitted, [] ++ collected)
    ∧ 33 + 12 ≤ off'.
Proof.
  destruct (scan_terminates Sample.standardPng 33 0 [] [])
    as (off' & emitted & collected & H & _ & _ & Hstep).
  exists off', emitted, collected. split; [exact H |].
  apply Hstep. vm_compute. lia.
Defined.

Lemma convert_ignores_tail_witness :
  tailStops [] ∧ tailStops IEND_CHUNK
  ∧ convert Sample.zlib Sample.calculateCRC
      (pngBytes [] Sample.ihdr Sample.chunks [])
    = convert Sample.zlib Sample.calculateCRC
        (pngBytes [] Sample.ihdr Sample.chunks IEND_CHUNK)
  ∧ convert Sample.zlib Sample.calculateCRC
      (pngBytes [] Sample.ihdr Sample.chunks [])
    = Ok Sample.cgbiPng.
Proof.
  assert (Hnone : tailStops []) by (by left).
  assert (Hiend : tailStops IEND_CHUNK).
  { right. by exists [x00; x00; x00; x00], [xae; x42; x60; x82]. }
  split; [exact Hnone |]. split; [exact Hiend |].
  split; [| vm_compute; reflexivity].
  exact (proj1 (convert_ignores_tail Sample.zlib Sample.calculateCRC []
                  Sample.ihdr Sample.chunks [] IEND_CHUNK
                  (or_introl eq_refl) sample_ihdr_framed eq_refl
                  sample_chunks_framed sample_chunks_before_IEND
                  Hnone Hiend)).
Defined.

Lemma convert_chunk_view_witness :
  List.filter isPassThrough Sample.chunks
  = List.filter isPassThrough Sample.chunksRegrouped
  ∧ convert Sample.zlib Sample.calculateCRC
      (pngBytes [] Sample.ihdr Sample.chunks IEND_CHUNK)
    = convert Sample.zlib Sample.calculateCRC
        (pngBytes [] Sample.ihdr Sample.chunksRegrouped IEND_CHUNK).
Proof.
  split; [reflexivity |].
  apply (convert_chunk_view Sample.zlib Sample.calculateCRC [] []);
    try reflexivity.
  - by left.
  - by left.
  - apply sample_ihdr_framed.
  - apply sample_chunks_framed.
  - repeat constructor.
  - apply sample_chunks_before_IEND.
  - repeat constructor.
  - right. by exists [x00; x00; x00; x00], [xae; x42; x60; x82].
  - right. by exists [x00; x00; x00; x00], [xae; x42; x60; x82].
Defined.

Lemma convert_output_framed_witness :
  framedInput Sample.standardPng
  ∧ convert Sample.zlib Sample.calculateCRC Sample.standardPng
    = Ok Sample.cgbiPng
  ∧ (Z.of_nat (length Sample.cgbiPng) < 2 ^ 32)%Z
  ∧ framedInput Sample.cgbiPng
  ∧ headerWidth Sample.cgbiPng = headerWidth Sample.standardPng.
Proof.
  assert (H : convert Sample.zlib Sample.calculateCRC Sample.standardPng
              = Ok Sample.cgbiPng) by reflexivity.
  assert (Hlen : (Z.of_nat (length Sample.cgbiPng) < 2 ^ 32)%Z)
    by reflexivity.
  split; [apply sample_framedInput |]. split; [exact H |].
  split; [exact Hlen |].
  destruct (convert_output_framed Sample.zlib Sample.calculateCRC _ _
              sample_framedInput H Hlen) as (Hf & _ & Hw & _).
  split; [exact Hf | exact Hw].
Defined.

Lemma convert_round_trip_cgbi_witness :
  CgbiPng32 Sample.zlib Sample.cgbiPng (CGBI_CHUNK ++ CGBI_BGRA) Sample.ihdr
    Sample.cgbiChunks Sample.swapped
  ∧ ∃ mid Q,
      convert Sample.zlib Sample.calculateCRC Sample.cgbiPng = Ok mid
      ∧ isStandardPng mid = true
      ∧ convert Sample.zlib Sample.calculateCRC mid = Ok Q
      ∧ Q = Sample.cgbiPng.
Proof.
  assert (HC : CgbiPng32 Sample.zlib Sample.cgbiPng (CGBI_CHUNK ++ CGBI_BGRA)
                 Sample.ihdr Sample.cgbiChunks Sample.swapped).
  { constructor; try reflexivity.
    - split; reflexivity.
    - apply sample_ihdr_framed.
    - repeat constructor.
    - repeat constructor. }
  split; [exact HC |].
  destruct (convert_round_trip_cgbi Sample.zlib Sample.calculateCRC
              Sample.cgbiPng (CGBI_CHUNK ++ CGBI_BGRA) Sample.ihdr
              Sample.cgbiChunks Sample.swapped
              (x78 :: x9c :: Sample.pixels) Sample.swapped HC
              eq_refl eq_refl eq_refl eq_refl eq_refl eq_refl)
    as (mid & Q & H1 & H2 & H3 & _ & H4 & _).
  exists mid, Q. split; [exact H1 |]. split; [exact H2 |].
  split; [exact H3 |]. rewrite H4. reflexivity.
Defined.
